(** * imghunt/scraper.py: the image-link pipeline

    A shallow embedding of [src/imghunt/scraper.py].  Python strings are
    [string]s, Python lists are [list]s, the insertion-ordered [dict] of
    [download_images] is an association list with Python's assignment
    semantics, and an uncaught exception is the [Raise] branch of a small
    error monad.  Everything outside the repository (the [validators]
    package, [httpx], [selectolax], Playwright, PIL, the file system and
    the clock) is a section variable. *)

From Stdlib Require Import Strings.String Strings.Ascii Lists.List.
From Stdlib Require Import Arith.Arith Bool.Bool Sorting.Sorted Lia.
From Stdlib Require Import Init.Decimal Numbers.DecimalNat Numbers.DecimalString.
Import ListNotations.
Open Scope string_scope.

(** ** Python string primitives

    Only the operations the scraper calls.  [count] and [replace] scan left
    to right and never overlap two matches, as [str.count] and
    [str.replace] do; both are only ever called with a non-empty pattern,
    and the definitions are meant for that case. *)

Fixpoint startswith (pre s : string) : bool :=
  match pre, s with
  | EmptyString, _ => true
  | String _ _, EmptyString => false
  | String a pre', String b s' => Ascii.eqb a b && startswith pre' s'
  end.

(** [sub in s] *)
Fixpoint contains (sub s : string) : bool :=
  startswith sub s ||
  match s with
  | EmptyString => false
  | String _ s' => contains sub s'
  end.

(** [skip] is the number of characters still covered by the last match. *)
Fixpoint count_from (sub : string) (skip : nat) (s : string) : nat :=
  match s with
  | EmptyString => 0
  | String _ s' =>
      match skip with
      | S k => count_from sub k s'
      | O => if startswith sub s
             then S (count_from sub (String.length sub - 1) s')
             else count_from sub 0 s'
      end
  end.

Definition count (sub s : string) : nat := count_from sub 0 s.

Fixpoint replace_from (old new : string) (skip : nat) (s : string) : string :=
  match s with
  | EmptyString => EmptyString
  | String c s' =>
      match skip with
      | S k => replace_from old new k s'
      | O => if startswith old s
             then new ++ replace_from old new (String.length old - 1) s'
             else String c (replace_from old new 0 s')
      end
  end.

Definition replace (old new s : string) : string := replace_from old new 0 s.

(** [s.split(sep)] for a one-character separator: empty fields are kept. *)
Fixpoint split (sep : ascii) (s : string) : list string :=
  match s with
  | EmptyString => [EmptyString]
  | String c s' =>
      if Ascii.eqb c sep then EmptyString :: split sep s'
      else match split sep s' with
           | [] => [String c EmptyString]
           | w :: ws => String c w :: ws
           end
  end.

(** [f"{n}"] for a non-negative integer. *)
Definition str_of_nat (n : nat) : string :=
  NilEmpty.string_of_uint (Nat.to_uint n).

(** ** Exceptions *)

Inductive exn : Type :=
| IndexError
| PlaywrightError (msg : string)
| OSError (msg : string).

Inductive res (A : Type) : Type :=
| Ret (a : A)
| Raise (e : exn).

Arguments Ret {A} a.
Arguments Raise {A} e.

Definition bind {A B : Type} (m : res A) (k : A -> res B) : res B :=
  match m with
  | Ret a => k a
  | Raise e => Raise e
  end.

Notation "x <- m ;; k" := (bind m (fun x => k))
  (at level 61, m at next level, right associativity).

(** [s[n]] *)
Definition getitem (s : string) (n : nat) : res ascii :=
  match String.get n s with
  | Some c => Ret c
  | None => Raise IndexError
  end.

(** ** Global variables of the module *)

Definition MIN_LINKS : nat := 5.
Definition TEMP_DL_FOLDER : string := "imghunt/temp_dl".
Definition TAGS : list string :=
  ["src"; "srcset"; "data-src"; "data-srcset"; "data-fallback-src"].

(** ** The parsed document

    What the scraper asks of a [selectolax] tree: the nodes matched by
    [tree.css("img")] and by [tree.css('link[rel="canonical"]')], each with
    its attribute dictionary (an attribute without a value maps to
    [None]). *)

Record node : Type := { attributes : list (string * option string) }.

Record ParsedHTML : Type := {
  css_img : list node;
  css_canonical : list node
}.

(** [node.attributes.get(key)] *)
Fixpoint attributes_get (attrs : list (string * option string)) (key : string)
  : option string :=
  match attrs with
  | [] => None
  | (k, v) :: rest => if String.eqb k key then v else attributes_get rest key
  end.

Definition get_canonical_url (tree : ParsedHTML) : option string :=
  match css_canonical tree with
  | [] => None
  | n :: _ => attributes_get (attributes n) "href"
  end.

(** The walrus test [if src := node.attributes.get(i)] keeps a value that
    is neither [None] nor the empty string. *)
Definition image_nodes (tree : ParsedHTML) (attrs : list string) : list string :=
  flat_map
    (fun n =>
       flat_map
         (fun i =>
            match attributes_get (attributes n) i with
            | Some (String c s) => [String c s]
            | _ => []
            end)
         attrs)
    (css_img tree).

(** ** Slash collapsing *)

Definition check_slashes (link : string) : string :=
  if (1 <? count "//" link)%nat
  then replace "::" "://" (replace "//" "/" (replace "://" "::" link))
  else link.

(** [links.pop(idx)], only called with [idx] in range. *)
Fixpoint pop {A : Type} (idx : nat) (l : list A) {struct l} : list A :=
  match l with
  | [] => []
  | x :: r =>
      match idx with
      | O => r
      | S k => x :: pop k r
      end
  end.

(** ** Responses, images and the result dictionary *)

Record Response : Type := { text : string; content : string }.

(** [get_request] returns either the response or a one-element list. *)
Inductive fetched : Type :=
| Resp (r : Response)
| ErrList (msgs : list string).

Record PILImage : Type := { format : string }.

Definition error_record : Type := (string * string)%type.

(** [str(exc)] of the [AttributeError] raised by [r.content] when [r] is
    the list returned by a failed [get_request]. *)
Definition list_has_no_content : string :=
  "'list' object has no attribute 'content'".

(** [d[k] = v] on an insertion-ordered dictionary: an existing key keeps
    its position and takes the new value, a new key goes last. *)
Fixpoint dict_set {V : Type} (d : list (string * V)) (k : string) (v : V)
  : list (string * V) :=
  match d with
  | [] => [(k, v)]
  | (k', v') :: rest =>
      if String.eqb k' k then (k', v) :: rest
      else (k', v') :: dict_set rest k v
  end.

(** [os.path.join(a, b)] on a POSIX system. *)
Definition endswith_slash (a : string) : bool :=
  match String.get (String.length a - 1) a with
  | Some c => Ascii.eqb c "/"
  | None => false
  end.

Definition path_join (a b : string) : string :=
  if startswith "/" b then b
  else if (String.length a =? 0)%nat || endswith_slash a then a ++ b
  else a ++ "/" ++ b.

(** ** What a run does to the outside world, in order *)

Inductive event : Type :=
| Requested (url : string)
| Rendered (url : string)
| MadeDir (path : string)
| SavedImage (path : string)
| MadeArchive (base_name root_dir : string).

Record run_result : Type := {
  num_raw_links : nat;
  num_dl_images : nat;
  num_errors : nat;
  error_links : list error_record;
  filename : string;
  source_directory : string;
  destination_directory : string
}.

(** [scraper] returns a list of messages or the result dictionary, or an
    exception escapes it. *)
Inductive outcome : Type :=
| Messages (msgs : list string)
| Result (r : run_result)
| Uncaught (e : exn).

(** ** A stand-in for [validators.url]

    The pipeline below is parametric in the validator.  Concrete runs use
    this one: scheme [http], [https] or [ftp], then [://], then a
    non-empty host, and no space anywhere. *)

Definition host_start (s : string) : bool :=
  match s with
  | EmptyString => false
  | String c _ => negb (Ascii.eqb c "/") && negb (Ascii.eqb c ":")
  end.

Definition url_shape (s : string) : bool :=
  negb (contains " " s) &&
  ((startswith "http://" s && host_start (substring 7 (String.length s) s))
   || (startswith "https://" s && host_start (substring 8 (String.length s) s))
   || (startswith "ftp://" s && host_start (substring 6 (String.length s) s))).

(** ** The pipeline *)

Section Pipeline.

(** [validators.url], as a truth value. *)
Variable valid_url : string -> bool.

(** [httpx.get] followed by [raise_for_status]: the response, or the
    text of the [HTTPError] or [RequestError]. *)
Variable http_get : string -> string + Response.

(** [selectolax.parser.HTMLParser]. *)
Variable HTMLParser : string -> ParsedHTML.

(** Launching the headless browser, [page.goto] and [page.content]. *)
Variable page_content : string -> res string.

(** [Image.open(BytesIO(...))]: the image, or the text of the exception. *)
Variable image_open : string -> string + PILImage.

(** [img_object.save(filepath)]: [None], or the text of the exception. *)
Variable image_save : PILImage -> string -> option string.

(** [os.mkdir]: [None], or the text of the [OSError]. *)
Variable mkdir : string -> option string.

(** [datetime.now().strftime("%d-%b-%y_%H-%M-%S")] and [os.getcwd()]. *)
Variable strftime_now : string.
Variable getcwd : string.

Definition check_url (query : string) : option (list string) :=
  if negb (valid_url query) then Some ["Invalid URL. Try again!"] else None.

Definition get_request (query : string) : fetched :=
  match http_get query with
  | inr response => Resp response
  | inl error => ErrList ["Error accessing URL: " ++ error]
  end.

Definition parse_html (response : Response) : ParsedHTML :=
  HTMLParser (text response).

(** *** Nested links *)

Definition nested_items (link : string) : list string :=
  filter valid_url (split " " (replace "," "" link)).

(** The [for idx, link in enumerate(links)] loop of [check_nested_links].
    The list iterator keeps the position [idx] and stops when it is past
    the end of the list as it is at that moment; the body may shorten the
    list with [links.pop(idx)].  The loop runs at most once per element
    of the list it starts from, which is what [fuel] counts. *)
Fixpoint nested_loop (fuel : nat) (links : list string) (idx : nat)
    (url_filter : list string) : list string * list string :=
  match fuel with
  | O => (links, url_filter)
  | S fuel' =>
      match nth_error links idx with
      | None => (links, url_filter)
      | Some link =>
          if contains " " link
          then nested_loop fuel' (pop idx links) (S idx)
                           (url_filter ++ nested_items link)
          else nested_loop fuel' links (S idx) url_filter
      end
  end.

Definition check_nested_links (links : list string) : list string :=
  if existsb (contains " ") links
  then let (links', url_filter) := nested_loop (length links) links 0 [] in
       links' ++ url_filter
  else links.

Definition get_raw_image_links (tree : ParsedHTML) (attrs : list string)
  : list string :=
  check_nested_links (image_nodes tree attrs).

Definition run_playwright (url : string) (attrs : list string)
  : res (list string) :=
  response <- page_content url ;;
  Ret (get_raw_image_links (HTMLParser response) attrs).

(** *** Link validity *)

Inductive checked : Type :=
| Valid (link : string)
| Invalid (link : string).

(** The correction applied after a failed validity test in pass [i]. *)
Definition correct (i : nat) (link query : string)
    (canonical_url : option string) : res string :=
  if (i =? 0)%nat then
    Ret (if startswith "//" link then "https:" ++ link else link)
  else if (i =? 1)%nat then
    c0 <- getitem link 0 ;;
    if Ascii.eqb c0 "/" then
      c1 <- getitem link 1 ;;
      if negb (Ascii.eqb c1 "/") then
        Ret (match canonical_url with
             | None => query ++ link
             | Some canonical => canonical ++ link
             end)
      else Ret link
    else Ret link
  else Ret link.

(** [for i in range(max_checks)] from pass [i] on, with [passes] passes
    left; running out of passes is the [else] branch of the loop. *)
Fixpoint check_passes (passes i : nat) (link query : string)
    (canonical_url : option string) : res checked :=
  match passes with
  | O => Ret (Invalid link)
  | S passes' =>
      let link := check_slashes link in
      if valid_url link then Ret (Valid link)
      else
        link' <- correct i link query canonical_url ;;
        check_passes passes' (S i) link' query canonical_url
  end.

Definition max_checks : nat := 3.

Fixpoint check_links (raw_links : list string) (query : string)
    (canonical_url : option string)
    (valid_links : list string) (error_links : list error_record)
  : res (list string * list error_record) :=
  match raw_links with
  | [] => Ret (valid_links, error_links)
  | link :: rest =>
      c <- check_passes max_checks 0 link query canonical_url ;;
      match c with
      | Valid link' =>
          check_links rest query canonical_url
                      (valid_links ++ [link']) error_links
      | Invalid link' =>
          check_links rest query canonical_url valid_links
                      (error_links ++ [("First Pass - Invalid Link", link')])
      end
  end.

Definition check_link_validity (raw_links : list string) (query : string)
    (canonical_url : option string)
  : res (list string * list error_record) :=
  check_links raw_links query canonical_url [] [].

(** *** Downloading *)

Definition image_dict : Type := list (string * (PILImage * string)).

(** The body of the [try]: every exception ends in the [except] clause,
    as its text.  When [get_request] hands back its list, reading
    [r.content] is what raises. *)
Definition try_image (link : string) : string + PILImage :=
  match get_request link with
  | ErrList _ => inl list_has_no_content
  | Resp r => image_open (content r)
  end.

Definition image_filename (idx : nat) (img_object : PILImage) : string :=
  "IMG_" ++ str_of_nat idx ++ "." ++ format img_object.

Fixpoint download_loop (idx : nat) (valid_links : list string)
    (results : image_dict) (errors : list error_record)
  : image_dict * list error_record :=
  match valid_links with
  | [] => (results, errors)
  | link :: rest =>
      match try_image link with
      | inr img_object =>
          download_loop (S idx) rest
            (dict_set results (image_filename idx img_object)
                      (img_object, link))
            errors
      | inl exc =>
          download_loop (S idx) rest results (errors ++ [(exc, link)])
      end
  end.

Definition download_images (valid_links : list string)
  : image_dict * list error_record :=
  download_loop 1 valid_links [] [].

(** The links whose download succeeds, each with the ordinal the loop
    gave it and its image, in processing order. *)
Fixpoint downloaded (idx : nat) (valid_links : list string)
  : list (nat * PILImage * string) :=
  match valid_links with
  | [] => []
  | link :: rest =>
      match try_image link with
      | inr img_object => (idx, img_object, link) :: downloaded (S idx) rest
      | inl _ => downloaded (S idx) rest
      end
  end.

Definition dict_entry (d : nat * PILImage * string)
  : string * (PILImage * string) :=
  let '(idx, img_object, link) := d in
  (image_filename idx img_object, (img_object, link)).

(** *** Saving *)

Definition create_folder : string := "IMGHUNT_" ++ strftime_now.

Definition create_paths (temp_folder imghunt_folder : string)
  : string * string :=
  let source_dir := path_join getcwd temp_folder in
  let destination_dir := path_join source_dir imghunt_folder in
  (source_dir, destination_dir).

Fixpoint save_loop (directory_path : string) (images : image_dict)
    (success_count : nat) (errors : list error_record) (saved : list event)
  : nat * list error_record * list event :=
  match images with
  | [] => (success_count, errors, saved)
  | (name, (img_object, url)) :: rest =>
      let filepath := path_join directory_path name in
      match image_save img_object filepath with
      | None =>
          save_loop directory_path rest (S success_count) errors
                    (saved ++ [SavedImage filepath])
      | Some exc =>
          save_loop directory_path rest success_count
                    (errors ++ [(exc, url)]) saved
      end
  end.

Definition save_images (directory_path : string) (images : image_dict)
  : nat * list error_record * list event :=
  save_loop directory_path images 0 [] [].

(** *** The entry point

    The first component is what the run did to the outside world. *)
Definition scraper (query : string) : list event * outcome :=
  match check_url query with
  | Some initial_check => ([], Messages initial_check)
  | None =>
  match get_request query with
  | ErrList response => ([Requested query], Messages response)
  | Resp response =>
  let tree := parse_html response in
  let canonical_url := get_canonical_url tree in
  let raw_links := get_raw_image_links tree TAGS in
  let num_raw_links := length raw_links in
  if (num_raw_links =? 0)%nat then
    ([Requested query],
     Messages ["Unable to access images at " ++ query])
  else
  let rendering :=
    if (num_raw_links <? MIN_LINKS)%nat
    then ([Rendered query], run_playwright query TAGS)
    else ([], Ret raw_links) in
  let before := Requested query :: fst rendering in
  match snd rendering with
  | Raise e => (before, Uncaught e)
  | Ret raw_links =>
  match check_link_validity raw_links query canonical_url with
  | Raise e => (before, Uncaught e)
  | Ret (valid_links, error_links) =>
  let (extracted_images, dl_errors) := download_images valid_links in
  let fetches := map Requested valid_links in
  let error_links := (error_links ++ dl_errors)%list in
  let temp_dir := create_folder in
  let (source_dir, destination_dir) :=
    create_paths TEMP_DL_FOLDER temp_dir in
  match mkdir destination_dir with
  | Some e => ((before ++ fetches)%list, Uncaught (OSError e))
  | None =>
  let '(success_count, final_errors, saves) :=
    save_images destination_dir extracted_images in
  let error_links := (error_links ++ final_errors)%list in
  ((before ++ fetches ++ [MadeDir destination_dir] ++ saves
      ++ [MadeArchive (path_join source_dir temp_dir) destination_dir])%list,
   Result {| num_raw_links := num_raw_links;
             num_dl_images := success_count;
             num_errors := length error_links;
             error_links := error_links;
             filename := temp_dir;
             source_directory := source_dir;
             destination_directory := destination_dir |})
  end end end end end.

End Pipeline.

(** ** A small world to run the pipeline in

    Every page answers; its static markup is the string [static] and the
    browser renders it to the string [rendered].  The parser turns the
    former into [<img src=...>] elements for [static_links] and the latter
    into elements for [rendered_links].  Every image is a PNG except at a
    URL that contains [missing], which answers 404. *)

Definition img_src (link : string) : node :=
  {| attributes := [("src", Some link)] |}.

Definition lab_parser (static_links rendered_links : list string)
    (markup : string) : ParsedHTML :=
  {| css_img := map img_src (if String.eqb markup "rendered"
                             then rendered_links else static_links);
     css_canonical := [] |}.

Definition lab_http_get (url : string) : string + Response :=
  if contains "missing" url
  then inl "Client error '404 Not Found'"
  else inr {| text := "static"; content := "PNG" |}.

Definition lab_page_content (url : string) : res string := Ret "rendered".

Definition lab_image_open (bytes : string) : string + PILImage :=
  inr {| format := bytes |}.

Definition lab_scraper (static_links rendered_links : list string)
    (query : string) : list event * outcome :=
  scraper url_shape lab_http_get (lab_parser static_links rendered_links)
          lab_page_content lab_image_open (fun _ _ => None) (fun _ => None)
          "01-Jan-24_00-00-00" "/srv/app" query.

(** A link that begins with exactly one slash and has something after it. *)
Definition root_relative (link : string) : bool :=
  match link with
  | String c0 (String c1 _) => Ascii.eqb c0 "/" && negb (Ascii.eqb c1 "/")
  | _ => false
  end.

(** Every key of the dictionary is an image name with an ordinal below
    [idx]. *)
Definition keys_below (idx : nat) (results : image_dict) : Prop :=
  Forall (fun kv => exists j img, fst kv = image_filename j img /\ j < idx)
         results.


(** [True] on the event of a page being rendered. *)
Definition is_rendered (ev : event) : bool :=
  match ev with
  | Rendered _ => true
  | _ => false
  end.

(** ** imghunt/views.py

    The three views over what they read and write: the session (a
    dictionary from keys to JSON-like values), the [q] parameter of the
    request, the file system and the scraper.  A response is the call that
    builds it, [render], [redirect] or [HttpResponse] on a file. *)

(** [s.endswith(suffix)] *)
Fixpoint endswith (suffix s : string) : bool :=
  String.eqb suffix s ||
  match s with
  | EmptyString => false
  | String _ s' => endswith suffix s'
  end.

Inductive value : Type :=
| VStr (s : string)
| VInt (n : nat)
| VErrors (records : list error_record).

Definition session : Type := list (string * value).

(** [request.session.get(key)]; [key in request.session] is whether this
    is not [None]. *)
Fixpoint session_get (s : session) (key : string) : option value :=
  match s with
  | [] => None
  | (k, v) :: rest => if String.eqb k key then Some v else session_get rest key
  end.

Inductive fs_op : Type :=
| Remove (path : string)
| Rmtree (path : string).

Inductive view_exn : Type :=
| Escaped (e : exn)
| TypeError.

Inductive http_response : Type :=
| Render (template : string) (context : list (string * option value))
| Redirect (target : string)
| FileResponse (body content_type content_disposition : string).

(** A view answers, leaving a session and the messages it has flashed,
    or an exception escapes it. *)
Inductive view_outcome : Type :=
| Responded (s : session) (flashed : list string) (response : http_response)
| RaisedInView (e : view_exn).

Section Views.

Variable valid_url : string -> bool.
Variable http_get : string -> string + Response.
Variable HTMLParser : string -> ParsedHTML.
Variable page_content : string -> res string.
Variable image_open : string -> string + PILImage.
Variable image_save : PILImage -> string -> option string.
Variable mkdir : string -> option string.
Variables strftime_now getcwd : string.

(** [os.listdir], on whatever the session holds. *)
Variable listdir : value -> res (list string).

(** [os.remove] and [shutil.rmtree]: [None], or the text of the error. *)
Variable fs_do : fs_op -> option string.

(** [open(path, "rb")]: the content of the file. *)
Variable open_rb : string -> res string.

(** How an f-string renders what is not a string. *)
Variable py_format : option value -> string.

Definition fstring (v : option value) : string :=
  match v with
  | Some (VStr s) => s
  | _ => py_format v
  end.

(** The loop of [folder_cleanup]: the operations carried out, the failing
    one last, and the exception if there was one.  [os.path.join] is
    evaluated first in each round and wants a string. *)
Fixpoint cleanup_loop (file_path : value) (files : list string)
  : list fs_op * option view_exn :=
  match files with
  | [] => ([], None)
  | name :: rest =>
      match file_path with
      | VStr dir =>
          let fp := path_join dir name in
          if endswith ".DS_Store" name then cleanup_loop file_path rest
          else
            let op := if endswith ".zip" name then Remove fp else Rmtree fp in
            match fs_do op with
            | Some msg => ([op], Some (Escaped (OSError msg)))
            | None =>
                let (ops, raised) := cleanup_loop file_path rest in
                (op :: ops, raised)
            end
      | _ => ([], Some TypeError)
      end
  end.

Definition folder_cleanup (file_path : value)
  : list fs_op * option view_exn :=
  match listdir file_path with
  | Raise e => ([], Some (Escaped e))
  | Ret files => cleanup_loop file_path files
  end.

(** The first statement of [index]. *)
Definition index_cleanup (s : session) : list fs_op * option view_exn :=
  match session_get s "source_directory" with
  | Some file_path => folder_cleanup file_path
  | None => ([], None)
  end.

(** The eight assignments of [index], on the session it has cleared. *)
Definition result_session (query : string) (result : run_result) : session :=
  dict_set (dict_set (dict_set (dict_set (dict_set (dict_set (dict_set (dict_set
    []
    "query" (VStr query))
    "num_raw_links" (VInt (num_raw_links result)))
    "num_dl_images" (VInt (num_dl_images result)))
    "num_errors" (VInt (num_errors result)))
    "error_links" (VErrors (error_links result)))
    "filename" (VStr (filename result)))
    "source_directory" (VStr (source_directory result)))
    "destination_directory" (VStr (destination_directory result)).

Definition index (s : session) (q : option string)
  : list fs_op * list event * view_outcome :=
  let (ops, raised) := index_cleanup s in
  match raised with
  | Some e => (ops, [], RaisedInView e)
  | None =>
      match q with
      | None => (ops, [], Responded [] [] (Render "imghunt/index.html" []))
      | Some query =>
          let (trace, result) :=
            scraper valid_url http_get HTMLParser page_content image_open
                    image_save mkdir strftime_now getcwd query in
          match result with
          | Uncaught e => (ops, trace, RaisedInView (Escaped e))
          | Messages msgs =>
              match msgs with
              | [] => (ops, trace, RaisedInView (Escaped IndexError))
              | msg :: _ => (ops, trace, Responded [] [msg] (Redirect "."))
              end
          | Result r =>
              (ops, trace,
               Responded (result_session query r) []
                         (Redirect "imghunt:success"))
          end
      end
  end.

Definition success (s : session) : view_outcome :=
  match session_get s "query" with
  | None => Responded s ["Access Invalid!"] (Redirect "imghunt:index")
  | Some _ =>
      Responded s []
        (Render "imghunt/success.html"
           [("query", session_get s "query");
            ("num_raw_links", session_get s "num_raw_links");
            ("num_dl_images", session_get s "num_dl_images");
            ("num_errors", session_get s "num_errors");
            ("error_links", session_get s "error_links")])
  end.

Definition download_zip (s : session) : view_outcome :=
  let fp := session_get s "destination_directory" in
  let name := session_get s "filename" in
  match open_rb (fstring fp ++ ".zip") with
  | Raise e => RaisedInView (Escaped e)
  | Ret body =>
      Responded s []
        (FileResponse body "application/zip"
           ("attachment; filename=" ++ fstring name ++ ".zip"))
  end.

End Views.

(** The views in the small world: an empty download folder, a file system
    that never fails, an archive that opens. *)
Definition lab_index (static_links rendered_links : list string)
    (s : session) (q : option string)
  : list fs_op * list event * view_outcome :=
  index url_shape lab_http_get (lab_parser static_links rendered_links)
        lab_page_content lab_image_open (fun _ _ => None) (fun _ => None)
        "01-Jan-24_00-00-00" "/srv/app" (fun _ => Ret []) (fun _ => None)
        s q.

(** No two neighbours of the list both hold a space. *)
Fixpoint no_adjacent_spaced (links : list string) : bool :=
  match links with
  | a :: rest =>
      match rest with
      | b :: _ => negb (contains " " a && contains " " b)
      | [] => true
      end && no_adjacent_spaced rest
  | [] => true
  end.

(** * Properties *)

(** ** Strings *)

Lemma ascii_eqb_false (a b : ascii) : a <> b -> Ascii.eqb a b = false.
Proof. intro H. now apply Ascii.eqb_neq. Qed.

Lemma contains_char_cons (h a : ascii) (s : string) :
  contains (String h EmptyString) (String a s) = false ->
  Ascii.eqb h a = false /\ contains (String h EmptyString) s = false.
Proof.
  simpl. rewrite andb_true_r. intro H.
  apply orb_false_iff in H. exact H.
Qed.

(** A pattern cannot match inside a prefix that lacks its first character. *)
Lemma replace_skips_prefix (h : ascii) (t new s r : string) :
  contains (String h EmptyString) s = false ->
  replace (String h t) new (s ++ r) = s ++ replace (String h t) new r.
Proof.
  unfold replace. induction s as [|a s IH]; intro H.
  - reflexivity.
  - apply contains_char_cons in H. destruct H as [Ha Hs].
    cbn [append replace_from startswith]. rewrite Ha. cbn [andb].
    now rewrite IH.
Qed.

(** Collapsing double slashes distributes over a cut whose right part does
    not begin with a slash: no match straddles the cut. *)
Lemma collapse_app_aux (s r : string) :
  startswith "/" r = false ->
  replace_from "//" "/" 0 (s ++ r)
    = replace_from "//" "/" 0 s ++ replace_from "//" "/" 0 r
  /\ (s <> EmptyString ->
      replace_from "//" "/" 1 (s ++ r)
        = replace_from "//" "/" 1 s ++ replace_from "//" "/" 0 r).
Proof.
  intro Hr. induction s as [|a s [IH0 IH1]].
  - split; [reflexivity | congruence].
  - split.
    + cbn [append replace_from startswith String.length Nat.sub].
      destruct (Ascii.eqb "/" a) eqn:Ha; cbn [andb].
      * destruct s as [|b s].
        -- cbn [append]. destruct r as [|c r]; [reflexivity|].
           cbn [startswith] in Hr |- *. rewrite andb_true_r in Hr |- *.
           rewrite Hr. reflexivity.
        -- assert (IH1' := IH1 ltac:(congruence)).
           cbn [append] in IH0, IH1' |- *.
           cbn [startswith]. rewrite andb_true_r.
           destruct (Ascii.eqb "/" b) eqn:Hb.
           ++ rewrite IH1'. reflexivity.
           ++ rewrite IH0. reflexivity.
      * now rewrite IH0.
    + intros _. cbn [append replace_from]. exact IH0.
Qed.

Lemma collapse_app (s r : string) :
  startswith "/" r = false ->
  replace "//" "/" (s ++ r) = replace "//" "/" s ++ replace "//" "/" r.
Proof. intro H. now apply collapse_app_aux. Qed.

Lemma collapse_keeps_colon_free (s : string) (k : nat) :
  contains ":" s = false -> contains ":" (replace_from "//" "/" k s) = false.
Proof.
  revert k. induction s as [|a s IH]; intros k H; [reflexivity|].
  apply contains_char_cons in H. destruct H as [Ha Hs].
  destruct k as [|k]; cbn [replace_from]; [|now apply IH].
  destruct (startswith "//" (String a s)).
  - cbn [append String.length Nat.sub]. simpl contains.
    now apply IH.
  - cbn [contains startswith]. rewrite Ha. cbn [andb orb]. now apply IH.
Qed.

Lemma collapse_nothing (s : string) :
  contains "//" s = false -> replace "//" "/" s = s.
Proof.
  unfold replace. induction s as [|a s IH]; intro H; [reflexivity|].
  cbn [contains] in H. apply orb_false_iff in H. destruct H as [Hm Hs].
  cbn [replace_from]. rewrite Hm. now rewrite IH.
Qed.

Lemma check_slashes_few (link : string) :
  count "//" link <= 1 -> check_slashes link = link.
Proof.
  intro H. unfold check_slashes.
  destruct (Nat.ltb_spec 1 (count "//" link)); [lia | reflexivity].
Qed.

Lemma separator_head (x : string) :
  replace "://" "::" ("://" ++ x) = "::" ++ replace "://" "::" x.
Proof. reflexivity. Qed.

Lemma collapse_colons (x : string) :
  replace "//" "/" ("::" ++ x) = "::" ++ replace "//" "/" x.
Proof. reflexivity. Qed.

Lemma restore_head (x : string) :
  replace "::" "://" ("::" ++ x) = "://" ++ replace "::" "://" x.
Proof. reflexivity. Qed.

(** Each of the three replacements leaves the first character alone, the
    middle one as long as that character is not a slash. *)
Lemma separator_keeps_head (c : ascii) (x : string) :
  exists y, replace "://" "::" (String c x) = String c y.
Proof.
  unfold replace. cbn [replace_from].
  destruct (startswith "://" (String c x)) eqn:E.
  - cbn [startswith] in E. apply andb_prop in E. destruct E as [E _].
    apply Ascii.eqb_eq in E. subst c. cbn [append]. eauto.
  - eauto.
Qed.

Lemma collapse_keeps_head (c : ascii) (x : string) :
  Ascii.eqb c "/" = false ->
  exists y, replace "//" "/" (String c x) = String c y.
Proof.
  intro H. unfold replace. cbn [replace_from startswith].
  rewrite Ascii.eqb_sym, H. cbn [andb]. eauto.
Qed.

Lemma restore_keeps_head (c : ascii) (x : string) :
  exists y, replace "::" "://" (String c x) = String c y.
Proof.
  unfold replace. cbn [replace_from].
  destruct (startswith "::" (String c x)) eqn:E.
  - cbn [startswith] in E. apply andb_prop in E. destruct E as [E _].
    apply Ascii.eqb_eq in E. subst c. cbn [append]. eauto.
  - eauto.
Qed.

Lemma root_relative_inv (link : string) :
  root_relative link = true ->
  exists c x, link = String "/" (String c x) /\ Ascii.eqb c "/" = false.
Proof.
  destruct link as [|c0 [|c1 x]]; try discriminate. cbn [root_relative].
  intro H. apply andb_prop in H. destruct H as [H0 H1].
  apply Ascii.eqb_eq in H0. subst c0.
  apply negb_true_iff in H1. eauto.
Qed.

Lemma root_relative_intro (c : ascii) (x : string) :
  Ascii.eqb c "/" = false -> root_relative (String "/" (String c x)) = true.
Proof. intro H. cbn [root_relative]. now rewrite H. Qed.

(** The three replacements on a link that begins with one slash. *)
Lemma rewrite_after_slash (c : ascii) (x : string) :
  Ascii.eqb c "/" = false ->
  exists y,
    replace "::" "://" (replace "//" "/" (replace "://" "::"
      (String "/" (String c x)))) = String "/" (String c y).
Proof.
  intro H.
  change (replace "://" "::" (String "/" (String c x)))
    with (String "/" (replace "://" "::" (String c x))).
  destruct (separator_keeps_head c x) as [y1 ->].
  assert (E : replace "//" "/" (String "/" (String c y1))
              = String "/" (replace "//" "/" (String c y1))).
  { unfold replace. cbn [replace_from startswith].
    rewrite (Ascii.eqb_sym "/" c), H. reflexivity. }
  rewrite E. destruct (collapse_keeps_head c y1 H) as [y2 ->].
  change (replace "::" "://" (String "/" (String c y2)))
    with (String "/" (replace "::" "://" (String c y2))).
  destruct (restore_keeps_head c y2) as [y3 ->]. eauto.
Qed.

(** The same on a link that begins with two slashes and then something
    else: the first replacement of the middle step eats one of them. *)
Lemma rewrite_after_two_slashes (c : ascii) (x : string) :
  Ascii.eqb c "/" = false ->
  exists y,
    replace "::" "://" (replace "//" "/" (replace "://" "::"
      ("//" ++ String c x))) = String "/" (String c y).
Proof.
  intro H.
  change (replace "://" "::" ("//" ++ String c x))
    with ("//" ++ replace "://" "::" (String c x)).
  destruct (separator_keeps_head c x) as [y1 ->].
  change (replace "//" "/" ("//" ++ String c y1))
    with (String "/" (replace "//" "/" (String c y1))).
  destruct (collapse_keeps_head c y1 H) as [y2 ->].
  change (replace "::" "://" (String "/" (String c y2)))
    with (String "/" (replace "::" "://" (String c y2))).
  destruct (restore_keeps_head c y2) as [y3 ->]. eauto.
Qed.

Lemma check_slashes_root_relative (link : string) :
  root_relative link = true -> root_relative (check_slashes link) = true.
Proof.
  intro H. unfold check_slashes.
  destruct (1 <? count "//" link)%nat; [|exact H].
  apply root_relative_inv in H. destruct H as (c & x & -> & Hc).
  destruct (rewrite_after_slash c x Hc) as [y ->].
  now apply root_relative_intro.
Qed.

Lemma contains_count (s : string) :
  contains "//" s = true -> 1 <= count "//" s.
Proof.
  unfold count. induction s as [|a s IH]; intro H; [discriminate|].
  cbn [contains] in H. cbn [count_from].
  destruct (startswith "//" (String a s)); [lia|].
  cbn [orb] in H. auto.
Qed.

Lemma count_after_two_slashes (rem : string) :
  count "//" ("//" ++ rem) = S (count "//" rem).
Proof. reflexivity. Qed.

Lemma check_slashes_protocol_relative (rem : string) :
  startswith "/" rem = false -> contains "//" rem = true ->
  root_relative (check_slashes ("//" ++ rem)) = true.
Proof.
  intros Hhead Hmore. unfold check_slashes.
  apply contains_count in Hmore.
  rewrite count_after_two_slashes.
  destruct (Nat.ltb_spec 1 (S (count "//" rem))); [|lia].
  destruct rem as [|c x]; [cbn in Hmore; lia|].
  cbn [startswith] in Hhead. rewrite andb_true_r in Hhead.
  rewrite Ascii.eqb_sym in Hhead.
  destruct (rewrite_after_two_slashes c x Hhead) as [y ->].
  now apply root_relative_intro.
Qed.

Lemma rewrite_keeps_first_not_slash (rest : string) :
  startswith "/" rest = false ->
  startswith "/"
    (replace "::" "://" (replace "//" "/" (replace "://" "::" rest))) = false.
Proof.
  destruct rest as [|c x]; [reflexivity|]. intro H.
  cbn [startswith] in H. rewrite andb_true_r in H.
  assert (Hc : Ascii.eqb c "/" = false) by now rewrite Ascii.eqb_sym.
  destruct (separator_keeps_head c x) as [y1 ->].
  destruct (collapse_keeps_head c y1 Hc) as [y2 ->].
  destruct (restore_keeps_head c y2) as [y3 ->].
  cbn [startswith]. now rewrite H.
Qed.

(** C6: on a link made of a scheme without a colon, the separator [://]
    and a remainder, slash collapsing returns a scheme without a colon,
    the separator [://] and a remainder: the first colon of the result is
    still followed by two slashes.  The scheme itself comes back unchanged
    when it holds no double slash, and when no third slash followed the
    separator none follows it in the result. *)
Theorem check_slashes_keeps_scheme_separator (scheme rest : string) :
  contains ":" scheme = false ->
  exists scheme' rest',
    check_slashes (scheme ++ "://" ++ rest) = scheme' ++ "://" ++ rest'
    /\ contains ":" scheme' = false
    /\ (contains "//" scheme = false -> scheme' = scheme)
    /\ (startswith "/" rest = false -> startswith "/" rest' = false).
Proof.
  intro Hs. unfold check_slashes.
  destruct (1 <? count "//" (scheme ++ "://" ++ rest))%nat.
  - exists (replace "//" "/" scheme),
           (replace "::" "://" (replace "//" "/" (replace "://" "::" rest))).
    split; [|split; [|split]].
    + rewrite (replace_skips_prefix ":" "//" "::" scheme _ Hs).
      rewrite separator_head.
      rewrite collapse_app by reflexivity.
      rewrite collapse_colons.
      rewrite (replace_skips_prefix ":" ":" "://").
      * now rewrite restore_head.
      * now apply collapse_keeps_colon_free.
    + now apply collapse_keeps_colon_free.
    + apply collapse_nothing.
    + apply rewrite_keeps_first_not_slash.
  - exists scheme, rest. auto.
Qed.

Lemma check_slashes_keeps_scheme_separator_witness :
  contains ":" "https" = false /\
  exists scheme' rest',
    check_slashes ("https" ++ "://" ++ "/a//b") = scheme' ++ "://" ++ rest'
    /\ contains ":" scheme' = false
    /\ (contains "//" "https" = false -> scheme' = "https")
    /\ (startswith "/" "/a//b" = false -> startswith "/" rest' = false).
Proof.
  split; [reflexivity|].
  apply (check_slashes_keeps_scheme_separator "https" "/a//b"). reflexivity.
Defined.

(** The two links the specification singles out. *)
Example check_slashes_triple_slash :
  check_slashes "https:///a.png" = "https:///a.png"
  /\ check_slashes "https:///a//b.png" = "https:///a/b.png"
  /\ check_slashes "https://example.com/a//b.png" = "https://example.com/a/b.png".
Proof. repeat split; reflexivity. Qed.

(** ** The link normalizer *)

Section Normalizer.

Variable valid_url : string -> bool.
Variables (query : string) (canonical_url : option string).

Lemma correct_raises (i : nat) (link : string) (e : exn) :
  correct i link query canonical_url = Raise e -> e = IndexError.
Proof.
  unfold correct, getitem.
  destruct (i =? 0)%nat; [discriminate|].
  destruct (i =? 1)%nat; [|discriminate].
  destruct (get 0 link) as [c0|]; cbn [bind]; [|congruence].
  destruct (Ascii.eqb c0 "/"); [|discriminate].
  destruct (get 1 link) as [c1|]; cbn [bind]; [|congruence].
  destruct (negb (Ascii.eqb c1 "/")); discriminate.
Qed.

Lemma check_passes_raises (passes i : nat) (link : string) (e : exn) :
  check_passes valid_url passes i link query canonical_url = Raise e ->
  e = IndexError.
Proof.
  revert i link. induction passes as [|passes IH]; intros i link.
  - discriminate.
  - cbn [check_passes].
    destruct (valid_url (check_slashes link)); [discriminate|].
    destruct (correct i (check_slashes link) query canonical_url) as [l|e']
      eqn:E; cbn [bind].
    + apply IH.
    + intros [= <-]. now apply correct_raises in E.
Qed.

(** The loop over the raw links moves each of them to one of the two
    lists, as long as no exception escapes. *)
Lemma check_links_partition (raw_links valid_links : list string)
    (error_links : list error_record) valid_links' error_links' :
  check_links valid_url raw_links query canonical_url valid_links error_links
    = Ret (valid_links', error_links') ->
  length valid_links' + length error_links'
    = length valid_links + length error_links + length raw_links.
Proof.
  revert valid_links error_links.
  induction raw_links as [|link rest IH]; intros vs es.
  - intros [= <- <-]. cbn [length]. lia.
  - cbn [check_links].
    destruct (check_passes valid_url max_checks 0 link query canonical_url)
      as [[l|l]|e]; cbn [bind]; [| |discriminate]; intro H;
      apply IH in H; rewrite H, length_app; cbn [length]; lia.
Qed.

Lemma check_link_validity_partition (raw_links : list string)
    valid_links error_links :
  check_link_validity valid_url raw_links query canonical_url
    = Ret (valid_links, error_links) ->
  length valid_links + length error_links = length raw_links.
Proof.
  intro H. apply check_links_partition in H. exact H.
Qed.

Lemma check_passes_slash :
  valid_url "/" = false ->
  check_passes valid_url max_checks 0 "/" query canonical_url
    = Raise IndexError.
Proof.
  intro H. unfold max_checks. cbn [check_passes].
  change (check_slashes "/") with "/". rewrite H. cbn [correct Nat.eqb bind].
  change (startswith "//" "/") with false. cbv iota.
  change (check_slashes "/") with "/". rewrite H. reflexivity.
Qed.

Lemma check_links_slash (raw_links valid_links : list string)
    (error_links : list error_record) :
  valid_url "/" = false -> In "/" raw_links ->
  check_links valid_url raw_links query canonical_url valid_links error_links
    = Raise IndexError.
Proof.
  intros H. revert valid_links error_links.
  induction raw_links as [|link rest IH]; intros vs es Hin; [easy|].
  cbn [check_links]. destruct Hin as [-> | Hin].
  - now rewrite check_passes_slash.
  - destruct (check_passes valid_url max_checks 0 link query canonical_url)
      as [[l|l]|e] eqn:E; cbn [bind]; auto.
    apply check_passes_raises in E. now subst e.
Qed.

(** C5, amended: a link that passes validation and holds at most one
    [//] goes to the valid list character for character. *)
Theorem valid_link_is_kept (link : string) :
  valid_url link = true -> count "//" link <= 1 ->
  check_link_validity valid_url [link] query canonical_url
    = Ret ([link], []).
Proof.
  intros Hv Hc. unfold check_link_validity. cbn [check_links].
  unfold max_checks. cbn [check_passes].
  rewrite (check_slashes_few link Hc), Hv. reflexivity.
Qed.

(** C9, amended: a link that begins with exactly two slashes and holds
    another [//] further on comes out of slash collapsing with a single
    leading slash.  While that form and its second collapsing stay
    invalid, pass 0 adds nothing and pass 1 prepends the canonical URL,
    or the queried URL when there is none; the outcome depends on that
    candidate alone. *)
Theorem protocol_relative_resolved_as_root_relative (rem : string) :
  startswith "/" rem = false -> contains "//" rem = true ->
  let base := match canonical_url with
              | None => query
              | Some canonical => canonical
              end in
  let l1 := check_slashes ("//" ++ rem) in
  let l2 := check_slashes l1 in
  let l3 := check_slashes (base ++ l2) in
  root_relative l1 = true
  /\ (valid_url l1 = false -> valid_url l2 = false ->
      check_link_validity valid_url ["//" ++ rem] query canonical_url
        = Ret (if valid_url l3 then ([l3], [])
               else ([], [("First Pass - Invalid Link", l3)]))).
Proof.
  intros Hhead Hmore base l1 l2 l3.
  assert (R1 : root_relative l1 = true)
    by now apply check_slashes_protocol_relative.
  assert (R2 : root_relative l2 = true)
    by now apply check_slashes_root_relative.
  split; [exact R1|]. intros V1 V2.
  unfold check_link_validity. cbn [check_links].
  unfold max_checks. cbn [check_passes].
  fold l1. rewrite V1.
  change (correct 0 l1 query canonical_url)
    with (Ret (A := string)
            (if startswith "//" l1 then "https:" ++ l1 else l1)).
  destruct (root_relative_inv l1 R1) as (c1 & x1 & E1 & N1).
  assert (S1 : startswith "//" l1 = false).
  { rewrite E1. cbn [startswith]. rewrite (Ascii.eqb_sym "/" c1), N1.
    reflexivity. }
  rewrite S1. cbn [bind]. fold l2. rewrite V2.
  destruct (root_relative_inv l2 R2) as (c2 & x2 & E2 & N2).
  assert (C : correct 1 l2 query canonical_url = Ret (base ++ l2)).
  { rewrite E2. unfold correct, getitem. cbn [Nat.eqb get bind].
    change (Ascii.eqb "/" "/") with true. cbv iota. rewrite N2.
    cbn [negb]. subst base. now destruct canonical_url. }
  rewrite C. cbn [bind]. fold l3.
  destruct (valid_url l3); reflexivity.
Qed.

End Normalizer.

Lemma valid_link_is_kept_witness :
  url_shape "https://example.com/a.png" = true
  /\ count "//" "https://example.com/a.png" <= 1
  /\ check_link_validity url_shape ["https://example.com/a.png"]
       "https://example.com" None
     = Ret (["https://example.com/a.png"], []).
Proof.
  split; [reflexivity|]. split; [vm_compute; lia|].
  apply (valid_link_is_kept url_shape "https://example.com" None
           "https://example.com/a.png"); [reflexivity | vm_compute; lia].
Defined.

(** C5 as stated fails: this link is accepted as it is, and the list of
    valid links receives a different string. *)
Lemma valid_link_is_rewritten :
  url_shape "https://example.com//a.png" = true
  /\ check_link_validity url_shape ["https://example.com//a.png"]
       "https://example.com" None
     = Ret (["https://example.com/a.png"], [])
  /\ check_link_validity url_shape ["https://example.com//a.png"]
       "https://example.com" None
     <> Ret (["https://example.com//a.png"], []).
Proof.
  split; [reflexivity|]. split; [reflexivity|]. vm_compute. discriminate.
Qed.

Lemma protocol_relative_resolved_as_root_relative_witness :
  startswith "/" "host/a//b" = false
  /\ contains "//" "host/a//b" = true
  /\ url_shape "/host/a/b" = false
  /\ check_link_validity url_shape ["//host/a//b"] "https://example.com" None
     = Ret (["https://example.com/host/a/b"], []).
Proof.
  split; [reflexivity|]. split; [reflexivity|]. split; [reflexivity|].
  apply (protocol_relative_resolved_as_root_relative url_shape
           "https://example.com" None "host/a//b");
    reflexivity.
Defined.

(** C9 as stated fails: this link begins with [//] and holds another
    [//] further on, the collapsing leaves it beginning with [//], and
    pass 0 gives it the [https:] prefix. *)
Lemma protocol_relative_still_gets_https :
  startswith "//" "///img.example.com//a.png" = true
  /\ contains "//" "/img.example.com//a.png" = true
  /\ check_slashes "///img.example.com//a.png" = "//img.example.com/a.png"
  /\ check_link_validity url_shape ["///img.example.com//a.png"]
       "https://example.com" None
     = Ret (["https://img.example.com/a.png"], []).
Proof. repeat split; reflexivity. Qed.

(** C8: a raw link [/] that is not itself accepted makes the normalizer
    raise [IndexError], wherever it stands in the list: pass 1 reads the
    second character of a one-character string.  No error record is
    produced, since nothing is returned at all. *)
Theorem slash_link_raises (valid_url : string -> bool)
    (raw_links : list string) (query : string)
    (canonical_url : option string) :
  valid_url "/" = false -> In "/" raw_links ->
  check_link_validity valid_url raw_links query canonical_url
    = Raise IndexError.
Proof.
  intros H Hin. unfold check_link_validity. now apply check_links_slash.
Qed.

Lemma slash_link_raises_witness :
  url_shape "/" = false
  /\ In "/" ["https://example.com/a.png"; "/"; "/b.png"]
  /\ check_link_validity url_shape
       ["https://example.com/a.png"; "/"; "/b.png"] "https://example.com" None
     = Raise IndexError.
Proof.
  split; [reflexivity|]. split; [right; left; reflexivity|].
  apply (slash_link_raises url_shape); [reflexivity | right; left; reflexivity].
Defined.

(** C1 at its failing input: the first link is valid, the second is [/];
    the normalizer raises and neither list is returned, so no link of the
    input has an entry anywhere. *)
Theorem normalizer_drops_links_on_slash :
  check_link_validity url_shape ["https://example.com/a.png"; "/"]
    "https://example.com" None = Raise IndexError
  /\ forall valid_links error_links,
       check_link_validity url_shape ["https://example.com/a.png"; "/"]
         "https://example.com" None <> Ret (valid_links, error_links).
Proof.
  assert (E : check_link_validity url_shape ["https://example.com/a.png"; "/"]
                "https://example.com" None = Raise IndexError)
    by reflexivity.
  split; [exact E|]. intros vs es. rewrite E. discriminate.
Qed.

(** ** Nested links *)

Lemma pop_length {A : Type} (idx : nat) (l : list A) :
  length (pop idx l) <= length l.
Proof.
  revert idx. induction l as [|x r IH]; intro idx; [reflexivity|].
  destruct idx; cbn [pop length]; [lia|]. specialize (IH idx). lia.
Qed.

Section NestedLinks.

Variable valid_url : string -> bool.

(** The loop is over once the position is past the end of the list, so
    fuel beyond the length of the list is never used. *)
Lemma nested_loop_fuel (fuel extra : nat) (links : list string) (idx : nat)
    (url_filter : list string) :
  length links <= fuel + idx ->
  nested_loop valid_url (fuel + extra) links idx url_filter
    = nested_loop valid_url fuel links idx url_filter.
Proof.
  revert links idx url_filter.
  induction fuel as [|fuel IH]; intros links idx url_filter Hlen.
  - cbn [Nat.add nested_loop].
    assert (E : nth_error links idx = None) by (apply nth_error_None; lia).
    destruct extra; cbn [nested_loop]; [reflexivity | now rewrite E].
  - cbn [Nat.add nested_loop].
    destruct (nth_error links idx) as [link|] eqn:E; [|reflexivity].
    destruct (contains " " link).
    + apply IH.
      pose proof (pop_length idx links). lia.
    + apply IH. lia.
Qed.

Lemma check_nested_links_plain (links : list string) :
  existsb (contains " ") links = false ->
  check_nested_links valid_url links = links.
Proof. intro H. unfold check_nested_links. now rewrite H. Qed.

(** The descriptor list of the specification, alone in the collection. *)
Lemma check_nested_links_descriptors :
  valid_url "a.png" = true -> valid_url "b.png" = true ->
  valid_url "1x" = false -> valid_url "2x" = false ->
  check_nested_links valid_url ["a.png 1x, b.png 2x"] = ["a.png"; "b.png"].
Proof.
  intros Ha Hb H1 H2. unfold check_nested_links.
  change (existsb (contains " ") ["a.png 1x, b.png 2x"]) with true.
  cbv iota. cbn [length nested_loop nth_error].
  change (contains " " "a.png 1x, b.png 2x") with true. cbv iota.
  cbn [pop nth_error]. unfold nested_items.
  change (split " " (replace "," "" "a.png 1x, b.png 2x"))
    with ["a.png"; "1x"; "b.png"; "2x"].
  cbn [filter]. rewrite Ha, Hb, H1, H2. reflexivity.
Qed.

End NestedLinks.

(** C3 at its failing input: two values with a space, next to each other.
    Popping the first moves the second into the position the iterator has
    just left, so the loop never looks at it and it stays in the result,
    space and all. *)
Theorem check_nested_links_keeps_a_space :
  check_nested_links url_shape
    ["http://a.com/1.png 1x"; "http://a.com/2.png 2x"]
  = ["http://a.com/2.png 2x"; "http://a.com/1.png"]
  /\ existsb (contains " ")
       (check_nested_links url_shape
          ["http://a.com/1.png 1x"; "http://a.com/2.png 2x"]) = true.
Proof. split; reflexivity. Qed.

(** ** File names *)

Lemma digits_before_dot (d1 d2 : uint) (x y : string) :
  NilEmpty.string_of_uint d1 ++ "." ++ x
    = NilEmpty.string_of_uint d2 ++ "." ++ y ->
  d1 = d2.
Proof.
  revert d2. induction d1 as [|d1 IH|d1 IH|d1 IH|d1 IH|d1 IH|d1 IH|d1 IH
                               |d1 IH|d1 IH|d1 IH];
    intros [|d2|d2|d2|d2|d2|d2|d2|d2|d2|d2]; cbn [NilEmpty.string_of_uint append];
    intro H; try discriminate; try reflexivity;
    injection H as H; f_equal; now apply IH.
Qed.

Lemma image_filename_ordinal (i j : nat) (a b : PILImage) :
  image_filename i a = image_filename j b -> i = j.
Proof.
  unfold image_filename, str_of_nat. cbn [append]. intro H.
  injection H as H. apply digits_before_dot in H.
  now apply DecimalNat.Unsigned.to_uint_inj.
Qed.

Example image_filename_shape :
  image_filename 12 {| format := "JPEG" |} = "IMG_12.JPEG".
Proof. reflexivity. Qed.

Lemma dict_set_fresh {V : Type} (d : list (string * V)) (k : string) (v : V) :
  Forall (fun kv => fst kv <> k) d -> dict_set d k v = (d ++ [(k, v)])%list.
Proof.
  induction 1 as [|[k' v'] d Hk _ IH]; [reflexivity|].
  cbn [dict_set app]. cbn [fst] in Hk.
  destruct (String.eqb_spec k' k); [contradiction|]. now rewrite IH.
Qed.

(** ** The downloader *)

Section Downloader.

Variable http_get : string -> string + Response.
Variable image_open : string -> string + PILImage.

Lemma try_image_failed (link : string) (msgs : list string) :
  get_request http_get link = ErrList msgs ->
  try_image http_get image_open link = inl list_has_no_content.
Proof. intro H. unfold try_image. now rewrite H. Qed.

#[local] Abbreviation try_image := (try_image http_get image_open).
#[local] Abbreviation download_loop := (download_loop http_get image_open).
#[local] Abbreviation download_images := (download_images http_get image_open).
#[local] Abbreviation downloaded := (downloaded http_get image_open).

Lemma keys_below_fresh (idx : nat) (results : image_dict) (img : PILImage) :
  keys_below idx results ->
  Forall (fun kv => fst kv <> image_filename idx img) results.
Proof.
  unfold keys_below. intro H. eapply Forall_impl; [|exact H].
  intros kv (j & img' & E & Hj) Heq. rewrite E in Heq.
  apply image_filename_ordinal in Heq. lia.
Qed.

Lemma keys_below_step (idx : nat) (results : image_dict) (img : PILImage)
    (link : string) :
  keys_below idx results ->
  keys_below (S idx)
    (results ++ [(image_filename idx img, (img, link))])%list.
Proof.
  unfold keys_below. intro H. apply Forall_app. split.
  - eapply Forall_impl; [|exact H].
    intros kv (j & img' & E & Hj). exists j, img'. split; [exact E | lia].
  - constructor; [|constructor]. exists idx, img. cbn [fst]. split; [reflexivity | lia].
Qed.

(** The dictionary gains one entry per successful link, in order, and
    the error list one record per failed link. *)
Lemma download_loop_spec (valid_links : list string) (idx : nat)
    (results : image_dict) (errors : list error_record) :
  keys_below idx results ->
  fst (download_loop idx valid_links results errors)
    = (results ++ map dict_entry (downloaded idx valid_links))%list
  /\ length (fst (download_loop idx valid_links results errors))
     + length (snd (download_loop idx valid_links results errors))
     = length results + length errors + length valid_links.
Proof.
  revert idx results errors.
  induction valid_links as [|link rest IH]; intros idx results errors K.
  - cbn [download_loop downloaded map fst snd length].
    rewrite app_nil_r. split; [reflexivity | lia].
  - cbn [download_loop downloaded].
    destruct (try_image link) as [exc|img].
    + destruct (IH (S idx) results (errors ++ [(exc, link)])%list) as [E L].
      { unfold keys_below in *. eapply Forall_impl; [|exact K].
        intros kv (j & img' & E & Hj). exists j, img'. split; [exact E | lia]. }
      split; [exact E|]. rewrite L, length_app. cbn [length]. lia.
    + rewrite (dict_set_fresh results _ _ (keys_below_fresh idx results img K)).
      destruct (IH (S idx)
                   (results ++ [(image_filename idx img, (img, link))])%list
                   errors (keys_below_step idx results img link K)) as [E L].
      split.
      * rewrite E, <- app_assoc. reflexivity.
      * rewrite L, length_app. cbn [length]. lia.
Qed.

Lemma downloaded_ordinals (valid_links : list string) (idx : nat) :
  StronglySorted lt (map (fun d => fst (fst d)) (downloaded idx valid_links))
  /\ Forall (fun d => idx <= fst (fst d)
                      /\ nth_error valid_links (fst (fst d) - idx)
                         = Some (snd d)
                      /\ try_image (snd d) = inr (snd (fst d)))
            (downloaded idx valid_links).
Proof.
  revert idx. induction valid_links as [|link rest IH]; intro idx.
  - split; constructor.
  - destruct (IH (S idx)) as [Sorted All].
    assert (All' : Forall (fun d => idx <= fst (fst d)
                      /\ nth_error (link :: rest) (fst (fst d) - idx)
                         = Some (snd d)
                      /\ try_image (snd d) = inr (snd (fst d)))
                     (downloaded (S idx) rest)).
    { eapply Forall_impl; [|exact All].
      intros [[i img] l]. cbn [fst snd]. intros (Hi & Hn & Ht).
      split; [lia|]. split; [|exact Ht].
      replace (i - idx) with (S (i - S idx)) by lia. exact Hn. }
    cbn [downloaded]. destruct (try_image link) as [exc|img] eqn:T.
    + split; [exact Sorted | exact All'].
    + split.
      * cbn [map fst]. constructor; [exact Sorted|].
        apply Forall_map. eapply Forall_impl; [|exact All].
        intros [[i img'] l]. cbn [fst]. lia.
      * constructor; [|exact All'].
        cbn [fst snd]. rewrite Nat.sub_diag. auto.
Qed.

Lemma download_loop_app (before after : list string) (idx : nat)
    (results : image_dict) (errors : list error_record) :
  download_loop idx (before ++ after) results errors
    = download_loop (idx + length before) after
        (fst (download_loop idx before results errors))
        (snd (download_loop idx before results errors)).
Proof.
  revert idx results errors.
  induction before as [|link rest IH]; intros idx results errors.
  - cbn [app length download_loop fst snd]. now rewrite Nat.add_0_r.
  - rewrite <- app_comm_cons. cbn [length download_loop].
    destruct (try_image link) as [exc|img]; rewrite IH;
      now replace (S idx + length rest) with (idx + S (length rest)) by lia.
Qed.

(** The downloader part of C1: each valid link ends up as one entry of
    the dictionary or as one error record. *)
Lemma download_images_partition (valid_links : list string) :
  length (fst (download_images valid_links))
    + length (snd (download_images valid_links))
  = length valid_links.
Proof.
  unfold download_images.
  destruct (download_loop_spec valid_links 1 [] []) as [_ L];
    [constructor | exact L].
Qed.

(** C7: the dictionary holds, in processing order, one entry per link
    whose download succeeded.  Its key is [IMG_], the decimal ordinal of
    the link, a dot and the format detected for the image; its value is
    the image and the link.  The ordinal is the 1-based position of the
    link in the list given; the ordinals of the entries are strictly
    increasing, hence pairwise distinct, and none is below 1; failed links
    leave gaps.  No two keys are equal. *)
Theorem download_images_ordinals (valid_links : list string) :
  fst (download_images valid_links)
    = map (fun d =>
             ("IMG_" ++ str_of_nat (fst (fst d)) ++ "."
                ++ format (snd (fst d)),
              (snd (fst d), snd d)))
          (downloaded 1 valid_links)
  /\ StronglySorted lt
       (map (fun d => fst (fst d)) (downloaded 1 valid_links))
  /\ Forall (fun d => 1 <= fst (fst d)
                      /\ nth_error valid_links (fst (fst d) - 1)
                         = Some (snd d)
                      /\ try_image (snd d) = inr (snd (fst d)))
            (downloaded 1 valid_links)
  /\ NoDup (map fst (fst (download_images valid_links))).
Proof.
  destruct (download_loop_spec valid_links 1 [] []) as [E _];
    [constructor|].
  destruct (downloaded_ordinals valid_links 1) as [Sorted All].
  cbn [List.app] in E. fold (download_images valid_links) in E.
  split; [|split; [exact Sorted|]; split; [exact All|]].
  { rewrite E. apply map_ext. now intros [[i img] l]. }
  rewrite E. clear E All.
  induction (downloaded 1 valid_links) as [|[[i img] l] ds IH];
    cbn [map dict_entry fst]; [constructor|].
  cbn [map fst] in Sorted. inversion Sorted as [|? ? Sorted' Lt]; subst.
  constructor; [|now apply IH].
  intro Hin. apply in_map_iff in Hin. destruct Hin as ([k v] & Hk & Hin).
  apply in_map_iff in Hin. destruct Hin as ([[j img'] l'] & Hd & Hin).
  cbn [dict_entry] in Hd. injection Hd as <- _. cbn [fst] in Hk.
  apply image_filename_ordinal in Hk. subst j.
  rewrite Forall_forall in Lt.
  assert (i < i); [|lia].
  apply Lt. apply in_map_iff. exists (i, img', l'). auto.
Qed.

(** C10: when the fetch of a link fails, [get_request] returns its
    one-element list, and the record the downloader appends for the link
    carries the text of the attribute error on that list, which is not
    the message in the list.  The dictionary is left as it was and the
    loop goes on with the next link and the next ordinal. *)
Theorem failed_fetch_records_attribute_error
    (before after : list string) (link error : string) :
  http_get link = inl error ->
  get_request http_get link = ErrList ["Error accessing URL: " ++ error]
  /\ download_images (before ++ link :: after)
     = download_loop (length before + 2) after
         (fst (download_images before))
         (snd (download_images before) ++ [(list_has_no_content, link)])%list
  /\ list_has_no_content <> "Error accessing URL: " ++ error.
Proof.
  intro H.
  assert (G : get_request http_get link
              = ErrList ["Error accessing URL: " ++ error])
    by (unfold get_request; now rewrite H).
  split; [exact G|]. split; [|discriminate].
  unfold download_images. rewrite download_loop_app.
  cbn [download_loop]. rewrite (try_image_failed link _ G).
  now replace (S (1 + length before)) with (length before + 2) by lia.
Qed.

End Downloader.

Lemma failed_fetch_records_attribute_error_witness :
  lab_http_get "https://e.com/missing.png" = inl "Client error '404 Not Found'"
  /\ download_images lab_http_get lab_image_open
       (["https://e.com/1.png"] ++ "https://e.com/missing.png"
          :: ["https://e.com/3.png"])
     = ([("IMG_1.PNG", ({| format := "PNG" |}, "https://e.com/1.png"));
         ("IMG_3.PNG", ({| format := "PNG" |}, "https://e.com/3.png"))],
        [(list_has_no_content, "https://e.com/missing.png")]).
Proof.
  split; [reflexivity|].
  destruct (failed_fetch_records_attribute_error lab_http_get lab_image_open
              ["https://e.com/1.png"] ["https://e.com/3.png"]
              "https://e.com/missing.png" "Client error '404 Not Found'"
              eq_refl) as (_ & E & _).
  rewrite E. reflexivity.
Defined.

(** ** The whole run *)

Section Run.

Variable valid_url : string -> bool.
Variable http_get : string -> string + Response.
Variable HTMLParser : string -> ParsedHTML.
Variable page_content : string -> res string.
Variable image_open : string -> string + PILImage.
Variable image_save : PILImage -> string -> option string.
Variable mkdir : string -> option string.
Variables strftime_now getcwd : string.

#[local] Abbreviation run :=
  (scraper valid_url http_get HTMLParser page_content image_open image_save
           mkdir strftime_now getcwd).
#[local] Abbreviation static_links response :=
  (get_raw_image_links valid_url (HTMLParser (text response)) TAGS).
#[local] Abbreviation canonical response :=
  (get_canonical_url (HTMLParser (text response))).

Variables (query : string) (response : Response).
Hypothesis query_valid : valid_url query = true.
Hypothesis query_fetched : http_get query = inr response.

Lemma run_without_links :
  static_links response = [] ->
  run query
    = ([Requested query], Messages ["Unable to access images at " ++ query]).
Proof.
  intro H. unfold scraper, check_url, get_request, parse_html.
  rewrite query_valid, query_fetched. cbn [negb]. rewrite H. reflexivity.
Qed.

(** With enough static links nothing is rendered, and the run goes on
    with the static links. *)
Lemma run_with_enough_links :
  MIN_LINKS <= length (static_links response) ->
  run query
    = match check_link_validity valid_url (static_links response) query
              (canonical response) with
      | Raise e => ([Requested query], Uncaught e)
      | Ret (valid_links, errors) =>
          let (images, dl_errors) :=
            download_images http_get image_open valid_links in
          let destination :=
            snd (create_paths getcwd TEMP_DL_FOLDER
                   (create_folder strftime_now)) in
          match mkdir destination with
          | Some e =>
              ((Requested query :: map Requested valid_links)%list,
               Uncaught (OSError e))
          | None =>
              let '(success_count, final_errors, saves) :=
                save_images image_save destination images in
              ((Requested query :: map Requested valid_links
                  ++ [MadeDir destination] ++ saves
                  ++ [MadeArchive
                        (path_join (fst (create_paths getcwd TEMP_DL_FOLDER
                                           (create_folder strftime_now)))
                                   (create_folder strftime_now))
                        destination])%list,
               Result
                 {| num_raw_links := length (static_links response);
                    num_dl_images := success_count;
                    num_errors :=
                      length ((errors ++ dl_errors) ++ final_errors)%list;
                    error_links := ((errors ++ dl_errors) ++ final_errors)%list;
                    filename := create_folder strftime_now;
                    source_directory :=
                      fst (create_paths getcwd TEMP_DL_FOLDER
                             (create_folder strftime_now));
                    destination_directory := destination |})
          end
      end.
Proof.
  intro H. unfold scraper, check_url, get_request, parse_html.
  rewrite query_valid, query_fetched. cbn [negb].
  destruct (Nat.eqb_spec (length (static_links response)) 0) as [E|_].
  { unfold MIN_LINKS in H. lia. }
  destruct (Nat.ltb_spec (length (static_links response)) MIN_LINKS) as [L|_].
  { lia. }
  cbn [fst snd app].
  destruct (check_link_validity valid_url (static_links response) query
              (canonical response)) as [[valid_links errors]|e];
    [|reflexivity].
  destruct (download_images http_get image_open valid_links)
    as [images dl_errors].
  unfold create_paths. cbn [fst snd].
  destruct (mkdir _); [reflexivity|].
  destruct (save_images image_save _ images) as [[n final] saves].
  reflexivity.
Qed.

(** The count a run reports is the number of links the normalizer has
    placed, provided nothing was rendered. *)
Lemma run_counts_static_links (r : run_result) :
  MIN_LINKS <= length (static_links response) ->
  snd (run query) = Result r ->
  exists valid_links errors,
    check_link_validity valid_url (static_links response) query
      (canonical response) = Ret (valid_links, errors)
    /\ num_raw_links r = length valid_links + length errors.
Proof.
  intros H. rewrite (run_with_enough_links H).
  destruct (check_link_validity valid_url (static_links response) query
              (canonical response)) as [[valid_links errors]|e] eqn:E;
    [|discriminate].
  destruct (download_images http_get image_open valid_links)
    as [images dl_errors].
  cbv zeta. destruct (mkdir _); [discriminate|].
  destruct (save_images image_save _ images) as [[n final] saves].
  cbn [snd]. intros [= <-]. exists valid_links, errors.
  split; [reflexivity|]. cbn [num_raw_links].
  symmetry. now apply check_link_validity_partition in E.
Qed.

(** A [/] among enough static links ends the run with the exception. *)
Lemma run_aborts_on_slash :
  valid_url "/" = false ->
  MIN_LINKS <= length (static_links response) ->
  In "/" (static_links response) ->
  run query = ([Requested query], Uncaught IndexError).
Proof.
  intros Hs H Hin. rewrite (run_with_enough_links H).
  unfold check_link_validity.
  now rewrite (check_links_slash valid_url query _ _ [] [] Hs Hin).
Qed.

Lemma run_with_links_gives_no_message (msgs : list string) :
  length (static_links response) <> 0 -> snd (run query) <> Messages msgs.
Proof.
  intros Hn H. revert H.
  unfold scraper, check_url, get_request, parse_html.
  rewrite query_valid, query_fetched. cbn [negb].
  destruct (Nat.eqb_spec (length (static_links response)) 0) as [E|_];
    [contradiction|].
  destruct (length (static_links response) <? MIN_LINKS)%nat; cbn [fst snd].
  - destruct (run_playwright valid_url HTMLParser page_content query TAGS)
      as [raw_links|e]; [|discriminate].
    destruct (check_link_validity valid_url raw_links query
                (canonical response)) as [[valid_links errors]|e];
      [|discriminate].
    destruct (download_images http_get image_open valid_links)
      as [images dl_errors].
    unfold create_paths. cbn [fst snd].
    destruct (mkdir _); [discriminate|].
    destruct (save_images image_save _ images) as [[n final] saves].
    discriminate.
  - destruct (check_link_validity valid_url (static_links response) query
                (canonical response)) as [[valid_links errors]|e];
      [|discriminate].
    destruct (download_images http_get image_open valid_links)
      as [images dl_errors].
    unfold create_paths. cbn [fst snd].
    destruct (mkdir _); [discriminate|].
    destruct (save_images image_save _ images) as [[n final] saves].
    discriminate.
Qed.

(** C4, amended: for a valid query whose page was fetched, the run ends
    with the message [Unable to access images at <query>] exactly when the
    static parse finds no raw link.  In that case the page request is all
    the run has done: nothing is rendered, no directory and no archive are
    made.  The one run left aside is the one that renders the page and
    gets no link from it; runs that render the page and find links, or in
    which rendering raises, are covered. *)
Theorem unable_error_follows_static_parse :
  length (static_links response) = 0
  \/ MIN_LINKS <= length (static_links response)
  \/ run_playwright valid_url HTMLParser page_content query TAGS <> Ret [] ->
  (static_links response = [] ->
   run query
     = ([Requested query],
        Messages ["Unable to access images at " ++ query]))
  /\ (snd (run query) = Messages ["Unable to access images at " ++ query] ->
      static_links response = []).
Proof.
  intros _. split.
  - apply run_without_links.
  - intro H.
    destruct (Nat.eq_dec (length (static_links response)) 0) as [Hz|Hn].
    + now apply length_zero_iff_nil.
    + exfalso. exact (run_with_links_gives_no_message _ Hn H).
Qed.

End Run.

Lemma unable_error_follows_static_parse_witness :
  url_shape "https://example.com" = true
  /\ lab_http_get "https://example.com"
     = inr {| text := "static"; content := "PNG" |}
  /\ lab_scraper [] ["https://example.com/a.png"] "https://example.com"
     = ([Requested "https://example.com"],
        Messages ["Unable to access images at https://example.com"]).
Proof.
  split; [reflexivity|]. split; [reflexivity|].
  apply (unable_error_follows_static_parse url_shape lab_http_get
           (lab_parser [] ["https://example.com/a.png"]) lab_page_content
           lab_image_open (fun _ _ => None) (fun _ => None)
           "01-Jan-24_00-00-00" "/srv/app" "https://example.com"
           {| text := "static"; content := "PNG" |});
    try reflexivity.
  left. reflexivity.
Defined.

(** C4 as stated fails in both directions.  In the first run the static
    parse finds one link and the rendered page none: both strategies have
    been tried, no raw link is left, and the run makes an empty archive
    and reports success.  In the second the static parse finds nothing and
    the run stops with the message at once, although rendering would have
    found an image. *)
Lemma unable_error_ignores_rendering :
  lab_scraper ["https://example.com/a.png"] [] "https://example.com"
  = ([Requested "https://example.com"; Rendered "https://example.com";
      MadeDir "/srv/app/imghunt/temp_dl/IMGHUNT_01-Jan-24_00-00-00";
      MadeArchive "/srv/app/imghunt/temp_dl/IMGHUNT_01-Jan-24_00-00-00"
                  "/srv/app/imghunt/temp_dl/IMGHUNT_01-Jan-24_00-00-00"],
     Result {| num_raw_links := 1;
               num_dl_images := 0;
               num_errors := 0;
               error_links := [];
               filename := "IMGHUNT_01-Jan-24_00-00-00";
               source_directory := "/srv/app/imghunt/temp_dl";
               destination_directory :=
                 "/srv/app/imghunt/temp_dl/IMGHUNT_01-Jan-24_00-00-00" |})
  /\ run_playwright url_shape
       (lab_parser ["https://example.com/a.png"] []) lab_page_content
       "https://example.com" TAGS = Ret []
  /\ lab_scraper [] ["https://example.com/a.png"] "https://example.com"
     = ([Requested "https://example.com"],
        Messages ["Unable to access images at https://example.com"])
  /\ run_playwright url_shape
       (lab_parser [] ["https://example.com/a.png"]) lab_page_content
       "https://example.com" TAGS = Ret ["https://example.com/a.png"].
Proof. repeat split; reflexivity. Qed.

(** C2 at its failing input: the static markup holds one image and the
    rendered page two.  The normalizer places the two rendered links, and
    the result reports the one link counted before rendering. *)
Theorem num_raw_links_is_counted_before_rendering :
  exists r,
    snd (lab_scraper ["https://example.com/a.png"]
           ["https://example.com/a.png"; "https://example.com/b.png"]
           "https://example.com") = Result r
    /\ run_playwright url_shape
         (lab_parser ["https://example.com/a.png"]
            ["https://example.com/a.png"; "https://example.com/b.png"])
         lab_page_content "https://example.com" TAGS
       = Ret ["https://example.com/a.png"; "https://example.com/b.png"]
    /\ check_link_validity url_shape
         ["https://example.com/a.png"; "https://example.com/b.png"]
         "https://example.com" None
       = Ret (["https://example.com/a.png"; "https://example.com/b.png"], [])
    /\ num_raw_links r = 1
    /\ num_dl_images r = 2.
Proof. eexists. repeat split; reflexivity. Qed.

(** * Further properties *)

(** ** Lengths under the three replacements *)

Lemma length_append (a b : string) :
  String.length (a ++ b) = String.length a + String.length b.
Proof. induction a as [|c a IH]; cbn [append String.length]; [reflexivity | now rewrite IH]. Qed.

Lemma startswith_two_length (a b c : ascii) (s : string) :
  startswith (String a (String b EmptyString)) (String c s) = true ->
  1 <= String.length s.
Proof.
  destruct s as [|d s]; cbn [startswith String.length]; [|lia].
  rewrite andb_false_r. discriminate.
Qed.

Lemma count_length (s : string) :
  2 * count_from "//" 0 s <= String.length s
  /\ 2 * count_from "//" 1 s <= String.length s - 1.
Proof.
  induction s as [|c s [IH0 IH1]]; [cbn; lia|].
  split.
  - cbn [count_from String.length Nat.sub].
    destruct (startswith "//" (String c s)) eqn:E; [|lia].
    apply startswith_two_length in E. lia.
  - cbn [count_from String.length]. lia.
Qed.

Lemma separator_length (s : string) (k : nat) :
  2 * (String.length s - k) <= 3 * String.length (replace_from "://" "::" k s).
Proof.
  revert k. induction s as [|c s IH]; intro k; [cbn; lia|].
  destruct k as [|k]; cbn [replace_from String.length Nat.sub].
  - destruct (startswith "://" (String c s)).
    + rewrite length_append. cbn [String.length]. specialize (IH 2). lia.
    + cbn [String.length]. specialize (IH 0). lia.
  - apply IH.
Qed.

Lemma collapse_length (s : string) (k : nat) :
  String.length s - k <= 2 * String.length (replace_from "//" "/" k s).
Proof.
  revert k. induction s as [|c s IH]; intro k; [cbn; lia|].
  destruct k as [|k]; cbn [replace_from String.length Nat.sub].
  - destruct (startswith "//" (String c s)).
    + rewrite length_append. cbn [String.length]. specialize (IH 1). lia.
    + cbn [String.length]. specialize (IH 0). lia.
  - apply IH.
Qed.

Lemma restore_length (s : string) (k : nat) :
  String.length s - k <= String.length (replace_from "::" "://" k s).
Proof.
  revert k. induction s as [|c s IH]; intro k; [cbn; lia|].
  destruct k as [|k]; cbn [replace_from String.length Nat.sub].
  - destruct (startswith "::" (String c s)).
    + rewrite length_append. cbn [String.length]. specialize (IH 1). lia.
    + cbn [String.length]. specialize (IH 0). lia.
  - apply IH.
Qed.

(** Slash collapsing never produces a string of fewer than two
    characters out of a longer one. *)
Lemma check_slashes_short (s : string) :
  String.length (check_slashes s) <= 1 -> check_slashes s = s.
Proof.
  unfold check_slashes.
  destruct (Nat.ltb_spec 1 (count "//" s)) as [H|H]; [|reflexivity].
  intro L. exfalso.
  pose proof (proj1 (count_length s)) as C. unfold count in H.
  pose proof (separator_length s 0) as L1.
  pose proof (collapse_length (replace "://" "::" s) 0) as L2.
  pose proof (restore_length (replace "//" "/" (replace "://" "::" s)) 0) as L3.
  unfold replace in *. lia.
Qed.

(** ** More on the link normalizer *)

Lemma count_skips_prefix (h : ascii) (t s r : string) :
  contains (String h EmptyString) s = false ->
  count (String h t) (s ++ r) = count (String h t) r.
Proof.
  unfold count. induction s as [|a s IH]; intro H; [reflexivity|].
  apply contains_char_cons in H. destruct H as [Ha Hs].
  cbn [append count_from startswith]. rewrite Ha. cbn [andb]. now apply IH.
Qed.

Lemma check_slashes_https (link : string) :
  count "//" link <= 1 -> check_slashes ("https:" ++ link) = "https:" ++ link.
Proof.
  intro H. apply check_slashes_few.
  now rewrite (count_skips_prefix "/" "/" "https:" link).
Qed.

Section NormalizerCases.

Variable valid_url : string -> bool.
Variables (query : string) (canonical_url : option string).

Lemma correct_second_pass_raises (link : string) (e : exn) :
  correct 1 link query canonical_url = Raise e -> link = "" \/ link = "/".
Proof.
  unfold correct, getitem. cbn [Nat.eqb].
  destruct link as [|c0 [|c1 rest]]; cbn [get bind]; auto.
  - destruct (Ascii.eqb_spec c0 "/") as [->|_]; [auto | discriminate].
  - destruct (Ascii.eqb c0 "/"); [|discriminate].
    destruct (negb (Ascii.eqb c1 "/")); discriminate.
Qed.

Lemma short_link_inv (s : string) :
  check_slashes s = "" \/ check_slashes s = "/" ->
  check_slashes s = s /\ (s = "" \/ s = "/").
Proof.
  intro H.
  assert (E : check_slashes s = s).
  { apply check_slashes_short. destruct H as [-> | ->]; cbn; lia. }
  split; [exact E|]. now rewrite <- E.
Qed.

(** The passes raise only on the empty link and on [/], and then only if
    the validator turns the link down. *)
Lemma check_passes_raise_inv (link : string) (e : exn) :
  check_passes valid_url max_checks 0 link query canonical_url = Raise e ->
  (link = "" \/ link = "/") /\ valid_url link = false.
Proof.
  unfold max_checks. cbn [check_passes].
  destruct (valid_url (check_slashes link)) eqn:V0; [discriminate|].
  change (correct 0 (check_slashes link) query canonical_url)
    with (Ret (A := string)
            (if startswith "//" (check_slashes link)
             then "https:" ++ check_slashes link else check_slashes link)).
  cbn [bind].
  set (l0' := if startswith "//" (check_slashes link)
              then "https:" ++ check_slashes link else check_slashes link).
  destruct (valid_url (check_slashes l0')) eqn:V1; [discriminate|].
  destruct (correct 1 (check_slashes l0') query canonical_url) as [l2|e1] eqn:C1;
    cbn [bind].
  - destruct (valid_url (check_slashes l2)); discriminate.
  - intros _. apply correct_second_pass_raises in C1.
    apply short_link_inv in C1. destruct C1 as [_ S1].
    assert (E0 : l0' = check_slashes link
                 /\ (check_slashes link = "" \/ check_slashes link = "/")).
    { subst l0'. destruct (startswith "//" (check_slashes link)).
      - destruct S1 as [S1|S1]; discriminate.
      - auto. }
    destruct E0 as [_ S0]. apply short_link_inv in S0.
    destruct S0 as [E S0]. rewrite E in V0. auto.
Qed.

Lemma check_passes_short_raises (link : string) :
  link = "" \/ link = "/" -> valid_url link = false ->
  check_passes valid_url max_checks 0 link query canonical_url
    = Raise IndexError.
Proof.
  intros [-> | ->] H.
  - unfold max_checks. cbn [check_passes].
    change (check_slashes "") with "". rewrite H. cbn [correct Nat.eqb bind].
    change (startswith "//" "") with false. cbv iota.
    change (check_slashes "") with "". rewrite H. reflexivity.
  - now apply check_passes_slash.
Qed.

Lemma check_links_raise_iff (raw_links valid_links : list string)
    (error_links : list error_record) :
  (exists e, check_links valid_url raw_links query canonical_url
               valid_links error_links = Raise e)
  <-> Exists (fun link => (link = "" \/ link = "/") /\ valid_url link = false)
             raw_links.
Proof.
  revert valid_links error_links.
  induction raw_links as [|link rest IH]; intros vs es.
  - split; [intros [e H]; discriminate | intro H; inversion H].
  - cbn [check_links].
    destruct (check_passes valid_url max_checks 0 link query canonical_url)
      as [[l|l]|e] eqn:E; cbn [bind].
    + rewrite IH. split; [now right|]. intro H.
      inversion H as [? ? [S V]|]; subst; [|assumption].
      now rewrite (check_passes_short_raises link S V) in E.
    + rewrite IH. split; [now right|]. intro H.
      inversion H as [? ? [S V]|]; subst; [|assumption].
      now rewrite (check_passes_short_raises link S V) in E.
    + split; [|eauto]. intros _. left. now apply check_passes_raise_inv in E.
Qed.

Lemma check_links_only_index_error (raw_links valid_links : list string)
    (error_links : list error_record) (e : exn) :
  check_links valid_url raw_links query canonical_url valid_links error_links
    = Raise e -> e = IndexError.
Proof.
  revert valid_links error_links.
  induction raw_links as [|link rest IH]; intros vs es; [discriminate|].
  cbn [check_links].
  destruct (check_passes valid_url max_checks 0 link query canonical_url)
    as [[l|l]|e'] eqn:E; cbn [bind]; try apply IH.
  intros [= <-]. now apply check_passes_raises in E.
Qed.

(** X1: when the normalizer returns, every raw link has gone to exactly
    one of the two lists: their lengths add up to the number of raw
    links. *)
Theorem normalizer_places_every_link (raw_links valid_links : list string)
    (error_links : list error_record) :
  check_link_validity valid_url raw_links query canonical_url
    = Ret (valid_links, error_links) ->
  length valid_links + length error_links = length raw_links.
Proof. apply check_link_validity_partition. Qed.

(** X2: the normalizer raises nothing but [IndexError], and it raises
    exactly when some raw link is the empty string or [/] and the validator
    turns that link down. *)
Theorem normalizer_raises_exactly (raw_links : list string) :
  (forall e, check_link_validity valid_url raw_links query canonical_url
             = Raise e -> e = IndexError)
  /\ ((exists e, check_link_validity valid_url raw_links query canonical_url
                 = Raise e)
      <-> Exists (fun link => (link = "" \/ link = "/")
                              /\ valid_url link = false) raw_links).
Proof.
  split.
  - intro e. apply check_links_only_index_error.
  - apply check_links_raise_iff.
Qed.

(** X3: a link that begins with [//], holds no second [//] and is not
    accepted as it is becomes [https:] followed by the link.  The new
    string is what ends up in the valid list if the validator accepts it,
    and what the error record carries if it does not. *)
Theorem protocol_relative_gets_https (link : string) :
  startswith "//" link = true -> count "//" link <= 1 ->
  valid_url link = false ->
  check_link_validity valid_url [link] query canonical_url
    = Ret (if valid_url ("https:" ++ link)
           then (["https:" ++ link], [])
           else ([], [("First Pass - Invalid Link", "https:" ++ link)])).
Proof.
  intros Hs Hc Hv. unfold check_link_validity. cbn [check_links].
  unfold max_checks. cbn [check_passes].
  rewrite (check_slashes_few link Hc), Hv.
  change (correct 0 link query canonical_url)
    with (Ret (A := string) (if startswith "//" link then "https:" ++ link else link)).
  rewrite Hs. cbn [bind]. rewrite (check_slashes_https link Hc).
  destruct (valid_url ("https:" ++ link)) eqn:V; [reflexivity|].
  change (correct 1 ("https:" ++ link) query canonical_url)
    with (Ret (A := string) ("https:" ++ link)).
  cbn [bind]. rewrite (check_slashes_https link Hc), V. reflexivity.
Qed.

(** X4: a link that begins with a single slash, holds at most one [//]
    and is not accepted as it is gets the canonical URL in front, or the
    queried URL when the page declares none.  If the result holds at most
    one [//] it is what ends up in the valid list, or in the error record
    when the validator turns it down. *)
Theorem root_relative_gets_base (link : string) :
  let base := match canonical_url with
              | None => query
              | Some canonical => canonical
              end in
  root_relative link = true -> count "//" link <= 1 ->
  valid_url link = false -> count "//" (base ++ link) <= 1 ->
  check_link_validity valid_url [link] query canonical_url
    = Ret (if valid_url (base ++ link)
           then ([base ++ link], [])
           else ([], [("First Pass - Invalid Link", base ++ link)])).
Proof.
  intros base Hr Hc Hv Hb. unfold check_link_validity. cbn [check_links].
  unfold max_checks. cbn [check_passes].
  rewrite (check_slashes_few link Hc), Hv.
  change (correct 0 link query canonical_url)
    with (Ret (A := string) (if startswith "//" link then "https:" ++ link else link)).
  destruct (root_relative_inv link Hr) as (c1 & x & E & N).
  assert (S0 : startswith "//" link = false).
  { rewrite E. cbn [startswith]. rewrite (Ascii.eqb_sym "/" c1), N. reflexivity. }
  rewrite S0. cbn [bind]. rewrite (check_slashes_few link Hc), Hv.
  assert (C : correct 1 link query canonical_url = Ret (base ++ link)).
  { rewrite E. unfold correct, getitem. cbn [Nat.eqb get bind].
    change (Ascii.eqb "/" "/") with true. cbv iota. rewrite N.
    cbn [negb]. subst base. now destruct canonical_url. }
  rewrite C. cbn [bind]. rewrite (check_slashes_few _ Hb).
  destruct (valid_url (base ++ link)); reflexivity.
Qed.

(** X6: a non-empty link that does not begin with a slash, holds at most
    one [//] and is not accepted is never rewritten: after the three
    passes it is recorded, as it came, under [First Pass - Invalid
    Link]. *)
Theorem unfixable_link_is_recorded (link : string) :
  link <> "" -> startswith "/" link = false -> count "//" link <= 1 ->
  valid_url link = false ->
  check_link_validity valid_url [link] query canonical_url
    = Ret ([], [("First Pass - Invalid Link", link)]).
Proof.
  intros Hn Hs Hc Hv. unfold check_link_validity. cbn [check_links].
  unfold max_checks. cbn [check_passes].
  destruct link as [|c0 rest]; [congruence|].
  cbn [startswith] in Hs. rewrite andb_true_r in Hs.
  assert (C0 : correct 0 (String c0 rest) query canonical_url
               = Ret (String c0 rest)).
  { unfold correct. cbn [Nat.eqb startswith]. now rewrite Hs. }
  assert (C1 : correct 1 (String c0 rest) query canonical_url
               = Ret (String c0 rest)).
  { unfold correct, getitem. cbn [Nat.eqb get bind].
    now rewrite Ascii.eqb_sym, Hs. }
  rewrite (check_slashes_few _ Hc), Hv, C0. cbn [bind].
  rewrite (check_slashes_few _ Hc), Hv, C1. cbn [bind].
  rewrite (check_slashes_few _ Hc), Hv. reflexivity.
Qed.

Lemma check_links_acc (raw_links valid_links : list string)
    (error_links : list error_record) :
  check_links valid_url raw_links query canonical_url valid_links error_links
    = r <- check_links valid_url raw_links query canonical_url [] [] ;;
      Ret ((valid_links ++ fst r)%list, (error_links ++ snd r)%list).
Proof.
  revert valid_links error_links.
  induction raw_links as [|link rest IH]; intros vs es.
  - cbn [check_links bind fst snd]. now rewrite !app_nil_r.
  - cbn [check_links].
    destruct (check_passes valid_url max_checks 0 link query canonical_url)
      as [[l|l]|e]; cbn [bind]; [| |reflexivity].
    + rewrite (IH (vs ++ [l])%list es), (IH ([] ++ [l])%list []).
      destruct (check_links valid_url rest query canonical_url [] [])
        as [[v e]|x]; cbn [bind fst snd app]; [|reflexivity].
      now rewrite <- app_assoc.
    + rewrite (IH vs (es ++ [_])%list), (IH [] ([] ++ [_])%list).
      destruct (check_links valid_url rest query canonical_url [] [])
        as [[v e]|x]; cbn [bind fst snd app]; [|reflexivity].
      now rewrite <- app_assoc.
Qed.

Lemma check_links_app (before after valid_links : list string)
    (error_links : list error_record) :
  check_links valid_url (before ++ after) query canonical_url
              valid_links error_links
    = r <- check_links valid_url before query canonical_url
             valid_links error_links ;;
      check_links valid_url after query canonical_url (fst r) (snd r).
Proof.
  revert valid_links error_links.
  induction before as [|link rest IH]; intros vs es; [reflexivity|].
  rewrite <- app_comm_cons. cbn [check_links].
  destruct (check_passes valid_url max_checks 0 link query canonical_url)
    as [[l|l]|e]; cbn [bind]; auto.
Qed.

(** X7: links are normalized one by one and in order: the outcome on two
    lists put end to end is the outcome on the first followed by the
    outcome on the second, and an exception in either is the outcome of
    the whole. *)
Theorem normalizer_composes (before after : list string) :
  check_link_validity valid_url (before ++ after) query canonical_url
    = r1 <- check_link_validity valid_url before query canonical_url ;;
      r2 <- check_link_validity valid_url after query canonical_url ;;
      Ret ((fst r1 ++ fst r2)%list, (snd r1 ++ snd r2)%list).
Proof.
  unfold check_link_validity. rewrite check_links_app.
  destruct (check_links valid_url before query canonical_url [] [])
    as [[v1 e1]|x]; cbn [bind fst snd]; [|reflexivity].
  apply check_links_acc.
Qed.

End NormalizerCases.

(** X5: when the page declares a canonical URL, the queried URL plays no
    part in the normalization. *)
Theorem canonical_url_takes_precedence (valid_url : string -> bool)
    (raw_links : list string) (query query' canonical : string) :
  check_link_validity valid_url raw_links query (Some canonical)
    = check_link_validity valid_url raw_links query' (Some canonical).
Proof.
  unfold check_link_validity. generalize (@nil string) (@nil error_record).
  induction raw_links as [|link rest IH]; intros vs es; [reflexivity|].
  cbn [check_links].
  assert (P : forall passes i l,
             check_passes valid_url passes i l query (Some canonical)
             = check_passes valid_url passes i l query' (Some canonical)).
  { induction passes as [|passes IHp]; intros i l; [reflexivity|].
    cbn [check_passes]. destruct (valid_url (check_slashes l)); [reflexivity|].
    replace (correct i (check_slashes l) query' (Some canonical))
      with (correct i (check_slashes l) query (Some canonical))
      by reflexivity.
    destruct (correct i (check_slashes l) query (Some canonical));
      cbn [bind]; auto. }
  rewrite P.
  destruct (check_passes valid_url max_checks 0 link query' (Some canonical))
    as [[l|l]|e]; cbn [bind]; auto.
Qed.

Lemma normalizer_places_every_link_witness :
  check_link_validity url_shape ["//img.example.com/a.png"; "/a.png"; "foo"]
    "https://example.com" None
  = Ret (["https://img.example.com/a.png"; "https://example.com/a.png"],
         [("First Pass - Invalid Link", "foo")])
  /\ length ["https://img.example.com/a.png"; "https://example.com/a.png"]
     + length [("First Pass - Invalid Link", "foo")]
     = length ["//img.example.com/a.png"; "/a.png"; "foo"].
Proof.
  split; [reflexivity|].
  apply (normalizer_places_every_link url_shape "https://example.com" None
           ["//img.example.com/a.png"; "/a.png"; "foo"]
           ["https://img.example.com/a.png"; "https://example.com/a.png"]
           [("First Pass - Invalid Link", "foo")]).
  reflexivity.
Defined.

Lemma protocol_relative_gets_https_witness :
  startswith "//" "//img.example.com/a.png" = true
  /\ count "//" "//img.example.com/a.png" <= 1
  /\ url_shape "//img.example.com/a.png" = false
  /\ check_link_validity url_shape ["//img.example.com/a.png"]
       "https://example.com" None
     = Ret (["https://img.example.com/a.png"], []).
Proof.
  split; [reflexivity|]. split; [vm_compute; lia|]. split; [reflexivity|].
  apply (protocol_relative_gets_https url_shape "https://example.com" None
           "//img.example.com/a.png");
    [reflexivity | vm_compute; lia | reflexivity].
Defined.

Lemma root_relative_gets_base_witness :
  root_relative "/a.png" = true
  /\ count "//" "/a.png" <= 1
  /\ url_shape "/a.png" = false
  /\ count "//" ("https://example.com" ++ "/a.png") <= 1
  /\ check_link_validity url_shape ["/a.png"] "https://example.com" None
     = Ret (["https://example.com/a.png"], []).
Proof.
  split; [reflexivity|]. split; [vm_compute; lia|]. split; [reflexivity|].
  split; [vm_compute; lia|].
  apply (root_relative_gets_base url_shape "https://example.com" None "/a.png");
    [reflexivity | vm_compute; lia | reflexivity | vm_compute; lia].
Defined.

Lemma unfixable_link_is_recorded_witness :
  "images/a.png" <> ""
  /\ startswith "/" "images/a.png" = false
  /\ count "//" "images/a.png" <= 1
  /\ url_shape "images/a.png" = false
  /\ check_link_validity url_shape ["images/a.png"] "https://example.com" None
     = Ret ([], [("First Pass - Invalid Link", "images/a.png")]).
Proof.
  split; [discriminate|]. split; [reflexivity|]. split; [vm_compute; lia|].
  split; [reflexivity|].
  apply (unfixable_link_is_recorded url_shape "https://example.com" None
           "images/a.png");
    [discriminate | reflexivity | vm_compute; lia | reflexivity].
Defined.

(** ** More on link extraction *)

(** X8: [image_nodes] collects exactly the non-empty values that some
    [img] element gives to one of the attributes asked for. *)
Theorem image_nodes_collects (tree : ParsedHTML) (attrs : list string)
    (value : string) :
  In value (image_nodes tree attrs)
  <-> value <> ""
      /\ exists n a, In n (css_img tree) /\ In a attrs
                     /\ attributes_get (attributes n) a = Some value.
Proof.
  unfold image_nodes. rewrite in_flat_map. split.
  - intros (n & Hn & H). apply in_flat_map in H. destruct H as (a & Ha & H).
    destruct (attributes_get (attributes n) a) as [[|c s]|] eqn:E;
      try contradiction.
    destruct H as [<- | []]. split; [discriminate|]. eauto.
  - intros (Hne & n & a & Hn & Ha & E). exists n. split; [exact Hn|].
    apply in_flat_map. exists a. split; [exact Ha|]. rewrite E.
    destruct value; [congruence | now left].
Qed.

Lemma split_fields_without_separator (sep : ascii) (s : string) :
  Forall (fun field => contains (String sep EmptyString) field = false)
         (split sep s).
Proof.
  induction s as [|c s IH]; cbn [split].
  - constructor; [reflexivity | constructor].
  - destruct (Ascii.eqb c sep) eqn:E.
    + constructor; [reflexivity | exact IH].
    + destruct (split sep s) as [|w ws]; inversion IH; subst;
        constructor; try constructor; auto;
        cbn [contains startswith]; rewrite Ascii.eqb_sym, E; cbn [andb orb];
        auto.
Qed.

Lemma pop_spaced (links : list string) (idx : nat) (link : string) :
  nth_error links idx = Some link -> contains " " link = true ->
  filter (fun l => negb (contains " " l)) (pop idx links)
    = filter (fun l => negb (contains " " l)) links
  /\ incl (pop idx links) links.
Proof.
  revert idx. induction links as [|x r IH]; intros idx Hn Hs.
  - destruct idx; discriminate.
  - destruct idx as [|idx]; cbn [nth_error pop filter] in *.
    + injection Hn as ->. rewrite Hs. cbn [negb].
      split; [reflexivity | apply incl_tl, incl_refl].
    + destruct (IH idx Hn Hs) as [F I]. rewrite F. split; [reflexivity|].
      intros y [<- | Hy]; [now left | right; now apply I].
Qed.

Section NestedLinksMore.

Variable valid_url : string -> bool.

Lemma nested_items_valid (link : string) :
  Forall (fun token => valid_url token = true /\ contains " " token = false)
         (nested_items valid_url link).
Proof.
  unfold nested_items. apply Forall_forall. intros t Ht.
  apply filter_In in Ht. destruct Ht as [Hin Hv]. split; [exact Hv|].
  pose proof (split_fields_without_separator " " (replace "," "" link)) as F.
  rewrite Forall_forall in F. now apply F.
Qed.

Lemma nested_loop_keeps (fuel : nat) (links : list string) (idx : nat)
    (url_filter : list string) :
  filter (fun l => negb (contains " " l))
         (fst (nested_loop valid_url fuel links idx url_filter))
    = filter (fun l => negb (contains " " l)) links
  /\ incl (fst (nested_loop valid_url fuel links idx url_filter)) links
  /\ exists tokens,
       snd (nested_loop valid_url fuel links idx url_filter)
         = (url_filter ++ tokens)%list
       /\ Forall (fun token => valid_url token = true
                               /\ contains " " token = false) tokens.
Proof.
  revert links idx url_filter.
  induction fuel as [|fuel IH]; intros links idx url_filter.
  - cbn [nested_loop fst snd]. split; [reflexivity|].
    split; [apply incl_refl|]. exists []. now rewrite app_nil_r.
  - cbn [nested_loop].
    destruct (nth_error links idx) as [link|] eqn:E.
    + destruct (contains " " link) eqn:Hs.
      * destruct (pop_spaced links idx link E Hs) as [F I].
        destruct (IH (pop idx links) (S idx)
                     (url_filter ++ nested_items valid_url link)%list)
          as (F' & I' & tokens & T & V).
        split; [now rewrite F'|]. split; [eapply incl_tran; eassumption|].
        exists (nested_items valid_url link ++ tokens)%list.
        split; [now rewrite T, app_assoc|].
        apply Forall_app. split; [apply nested_items_valid | exact V].
      * apply IH.
    + cbn [fst snd]. split; [reflexivity|]. split; [apply incl_refl|].
      exists []. now rewrite app_nil_r.
Qed.

(** X9: the result of [check_nested_links] is a part of the given list
    followed by new tokens.  The values without a space come through in
    that part, all of them and in their order; every token has passed the
    validator and holds no space. *)
Theorem check_nested_links_passes_plain_links (links : list string) :
  exists kept tokens,
    check_nested_links valid_url links = (kept ++ tokens)%list
    /\ filter (fun l => negb (contains " " l)) kept
       = filter (fun l => negb (contains " " l)) links
    /\ incl kept links
    /\ Forall (fun token => valid_url token = true
                            /\ contains " " token = false) tokens.
Proof.
  unfold check_nested_links. destruct (existsb (contains " ") links).
  - destruct (nested_loop_keeps (length links) links 0 [])
      as (F & I & tokens & T & V).
    destruct (nested_loop valid_url (length links) links 0 [])
      as [kept url_filter].
    cbn [fst snd app] in *. subst url_filter. exists kept, tokens. auto.
  - exists links, []. rewrite app_nil_r.
    split; [reflexivity|]. split; [reflexivity|].
    split; [apply incl_refl | constructor].
Qed.

(** X10: if the validator turns the empty string down, no raw link that
    comes out of a parsed page is empty. *)
Theorem raw_links_are_not_empty (tree : ParsedHTML) (attrs : list string) :
  valid_url "" = false ->
  Forall (fun link => link <> "") (get_raw_image_links valid_url tree attrs).
Proof.
  intro H. unfold get_raw_image_links, check_nested_links.
  assert (N : forall link, In link (image_nodes tree attrs) -> link <> "").
  { intros link Hin. unfold image_nodes in Hin.
    apply in_flat_map in Hin. destruct Hin as (n & _ & Hin).
    apply in_flat_map in Hin. destruct Hin as (a & _ & Hin).
    destruct (attributes_get (attributes n) a) as [[|c s]|];
      try contradiction.
    destruct Hin as [<- | []]. discriminate. }
  apply Forall_forall. intros link Hin.
  destruct (existsb (contains " ") (image_nodes tree attrs)); [|now apply N].
  destruct (nested_loop_keeps (length (image_nodes tree attrs))
              (image_nodes tree attrs) 0 []) as (_ & I & tokens & T & V).
  destruct (nested_loop valid_url (length (image_nodes tree attrs))
              (image_nodes tree attrs) 0 []) as [kept url_filter].
  cbn [fst snd app] in *. subst url_filter.
  apply in_app_or in Hin. destruct Hin as [Hin | Hin].
  - apply N. now apply I.
  - rewrite Forall_forall in V. destruct (V link Hin) as [Hv _].
    intros ->. congruence.
Qed.

End NestedLinksMore.

Lemma raw_links_are_not_empty_witness :
  url_shape "" = false
  /\ Forall (fun link => link <> "")
       (get_raw_image_links url_shape
          {| css_img := [{| attributes := [("src", Some "");
                                           ("srcset", Some "https://example.com/a.png  2x");
                                           ("alt", None)] |}];
             css_canonical := [] |} TAGS).
Proof.
  split; [reflexivity|].
  apply (raw_links_are_not_empty url_shape). reflexivity.
Defined.

(** ** More on downloading and saving *)

Section DownloaderMore.

Variable http_get : string -> string + Response.
Variable image_open : string -> string + PILImage.

Lemma download_loop_errors (valid_links : list string) (idx : nat)
    (results : image_dict) (errors : list error_record) :
  snd (download_loop http_get image_open idx valid_links results errors)
    = (errors
       ++ flat_map (fun link =>
                      match try_image http_get image_open link with
                      | inl exc => [(exc, link)]
                      | inr _ => []
                      end) valid_links)%list.
Proof.
  revert idx results errors.
  induction valid_links as [|link rest IH]; intros idx results errors.
  - cbn [download_loop flat_map snd]. now rewrite app_nil_r.
  - cbn [download_loop flat_map].
    destruct (try_image http_get image_open link) as [exc|img]; rewrite IH.
    + now rewrite <- app_assoc.
    + reflexivity.
Qed.

Lemma downloaded_links (valid_links : list string) (idx : nat) :
  map (fun kv => snd (snd kv))
      (map dict_entry (downloaded http_get image_open idx valid_links))
    = filter (fun link =>
                match try_image http_get image_open link with
                | inl _ => false
                | inr _ => true
                end) valid_links.
Proof.
  revert idx. induction valid_links as [|link rest IH]; intro idx;
    [reflexivity|].
  cbn [downloaded filter].
  destruct (try_image http_get image_open link) as [exc|img].
  - apply IH.
  - cbn [map dict_entry snd]. now rewrite IH.
Qed.

(** X11: the downloader loses no link and invents none.  The links of
    the dictionary entries are the links whose download succeeded, the
    error records are the failed links with the text of their exception,
    both in processing order, and the two sizes add up to the number of
    links given. *)
Theorem download_images_accounts (valid_links : list string) :
  map (fun kv => snd (snd kv))
      (fst (download_images http_get image_open valid_links))
    = filter (fun link =>
                match try_image http_get image_open link with
                | inl _ => false
                | inr _ => true
                end) valid_links
  /\ snd (download_images http_get image_open valid_links)
     = flat_map (fun link =>
                   match try_image http_get image_open link with
                   | inl exc => [(exc, link)]
                   | inr _ => []
                   end) valid_links
  /\ length (fst (download_images http_get image_open valid_links))
     + length (snd (download_images http_get image_open valid_links))
     = length valid_links.
Proof.
  unfold download_images.
  destruct (download_loop_spec http_get image_open valid_links 1 [] [])
    as [E L]; [constructor|].
  split; [|split].
  - rewrite E. cbn [app]. apply downloaded_links.
  - now rewrite download_loop_errors.
  - exact L.
Qed.

End DownloaderMore.

Section Saver.

Variable image_save : PILImage -> string -> option string.

Lemma save_loop_spec (directory_path : string) (images : image_dict)
    (success_count : nat) (errors : list error_record) (saved : list event) :
  let r := save_loop image_save directory_path images success_count errors
                     saved in
  snd r
    = (saved
       ++ flat_map (fun kv =>
                      match image_save (fst (snd kv))
                                       (path_join directory_path (fst kv)) with
                      | None => [SavedImage (path_join directory_path (fst kv))]
                      | Some _ => []
                      end) images)%list
  /\ snd (fst r)
     = (errors
        ++ flat_map (fun kv =>
                       match image_save (fst (snd kv))
                                        (path_join directory_path (fst kv)) with
                       | None => []
                       | Some exc => [(exc, snd (snd kv))]
                       end) images)%list
  /\ fst (fst r) + length (snd (fst r))
     = success_count + length errors + length images
  /\ length (snd r) + success_count = fst (fst r) + length saved.
Proof.
  revert success_count errors saved.
  induction images as [|[name [img url]] rest IH];
    intros success_count errors saved.
  - cbn [save_loop flat_map fst snd length]. rewrite !app_nil_r.
    repeat split; lia.
  - cbn [save_loop flat_map fst snd].
    destruct (image_save img (path_join directory_path name)) as [exc|].
    + destruct (IH success_count (errors ++ [(exc, url)])%list saved)
        as (E1 & E2 & E3 & E4).
      cbv zeta in E1, E2, E3, E4 |- *. cbn [app].
      split; [exact E1|]. split; [now rewrite E2, <- app_assoc|].
      split; [|exact E4].
      rewrite E3, length_app. cbn [length]. lia.
    + destruct (IH (S success_count) errors
                   (saved ++ [SavedImage (path_join directory_path name)])%list)
        as (E1 & E2 & E3 & E4).
      cbv zeta in E1, E2, E3, E4 |- *. cbn [app].
      split; [now rewrite E1, <- app_assoc|]. split; [exact E2|].
      split; [rewrite E3; cbn [length]; lia|].
      rewrite length_app in E4. cbn [length] in E4. lia.
Qed.

(** X12: [save_images] tries every image once, in the order of the
    dictionary, and goes on after a failure.  The count it returns and the
    error records add up to the number of images; the count is the number
    of files written, each at its name under the directory given; an error
    record holds the text of the exception and the URL of the image. *)
Theorem save_images_accounts (directory_path : string) (images : image_dict) :
  let r := save_images image_save directory_path images in
  fst (fst r) + length (snd (fst r)) = length images
  /\ length (snd r) = fst (fst r)
  /\ snd r
     = flat_map (fun kv =>
                   match image_save (fst (snd kv))
                                    (path_join directory_path (fst kv)) with
                   | None => [SavedImage (path_join directory_path (fst kv))]
                   | Some _ => []
                   end) images
  /\ snd (fst r)
     = flat_map (fun kv =>
                   match image_save (fst (snd kv))
                                    (path_join directory_path (fst kv)) with
                   | None => []
                   | Some exc => [(exc, snd (snd kv))]
                   end) images.
Proof.
  unfold save_images.
  destruct (save_loop_spec directory_path images 0 [] [])
    as (E1 & E2 & E3 & E4).
  cbv zeta in *. cbn [app length] in *.
  repeat split; auto; lia.
Qed.

End Saver.

(** ** More on the whole run *)

Lemma filter_rendered_requests (links : list string) :
  filter is_rendered (map Requested links) = [].
Proof. induction links; [reflexivity | assumption]. Qed.

Section RunMore.

Variable valid_url : string -> bool.
Variable http_get : string -> string + Response.
Variable HTMLParser : string -> ParsedHTML.
Variable page_content : string -> res string.
Variable image_open : string -> string + PILImage.
Variable image_save : PILImage -> string -> option string.
Variable mkdir : string -> option string.
Variables strftime_now getcwd : string.

#[local] Abbreviation run :=
  (scraper valid_url http_get HTMLParser page_content image_open image_save
           mkdir strftime_now getcwd).
#[local] Abbreviation static_links response :=
  (get_raw_image_links valid_url (HTMLParser (text response)) TAGS).
#[local] Abbreviation canonical response :=
  (get_canonical_url (HTMLParser (text response))).
#[local] Abbreviation rendered_links query :=
  (run_playwright valid_url HTMLParser page_content query TAGS).
#[local] Abbreviation source_dir := (path_join getcwd TEMP_DL_FOLDER).
#[local] Abbreviation destination_dir :=
  (path_join (path_join getcwd TEMP_DL_FOLDER) (create_folder strftime_now)).

Lemma run_invalid (query : string) :
  valid_url query = false ->
  run query = ([], Messages ["Invalid URL. Try again!"]).
Proof. intro H. unfold scraper, check_url. now rewrite H. Qed.

Lemma run_unreachable (query error : string) :
  valid_url query = true -> http_get query = inl error ->
  run query
    = ([Requested query], Messages ["Error accessing URL: " ++ error]).
Proof.
  intros Hv Hg. unfold scraper, check_url, get_request. now rewrite Hv, Hg.
Qed.

Lemma run_without_links_at (query : string) (response : Response) :
  valid_url query = true -> http_get query = inr response ->
  static_links response = [] ->
  run query
    = ([Requested query], Messages ["Unable to access images at " ++ query]).
Proof. apply run_without_links. Qed.

(** What a run does once the static parse has found a link. *)
Lemma run_from_links (query : string) (response : Response) :
  valid_url query = true -> http_get query = inr response ->
  length (static_links response) <> 0 ->
  let few := (length (static_links response) <? MIN_LINKS)%nat in
  let before := Requested query :: (if few then [Rendered query] else []) in
  run query
    = match (if few then rendered_links query
             else Ret (static_links response)) with
      | Raise e => (before, Uncaught e)
      | Ret raw_links =>
          match check_link_validity valid_url raw_links query
                  (canonical response) with
          | Raise e => (before, Uncaught e)
          | Ret placed =>
              let dl := download_images http_get image_open (fst placed) in
              match mkdir destination_dir with
              | Some e =>
                  ((before ++ map Requested (fst placed))%list,
                   Uncaught (OSError e))
              | None =>
                  let sv := save_images image_save destination_dir (fst dl) in
                  ((before ++ map Requested (fst placed)
                      ++ [MadeDir destination_dir] ++ snd sv
                      ++ [MadeArchive destination_dir destination_dir])%list,
                   Result
                     {| num_raw_links := length (static_links response);
                        num_dl_images := fst (fst sv);
                        num_errors :=
                          length ((snd placed ++ snd dl) ++ snd (fst sv))%list;
                        error_links :=
                          ((snd placed ++ snd dl) ++ snd (fst sv))%list;
                        filename := create_folder strftime_now;
                        source_directory := source_dir;
                        destination_directory := destination_dir |})
              end
          end
      end.
Proof.
  intros Hv Hg Hn few before. subst before few.
  unfold scraper, check_url, get_request, parse_html.
  rewrite Hv, Hg. cbn [negb].
  destruct (Nat.eqb_spec (length (static_links response)) 0) as [E|_];
    [contradiction|].
  destruct (length (static_links response) <? MIN_LINKS)%nat; cbn [fst snd].
  - destruct (rendered_links query) as [raw|e]; [|reflexivity].
    destruct (check_link_validity valid_url raw query (canonical response))
      as [[valid_links errors]|e]; [|reflexivity].
    cbn [fst snd].
    destruct (download_images http_get image_open valid_links)
      as [images dl_errors].
    unfold create_paths. cbn [fst snd].
    destruct (mkdir _); [reflexivity|].
    destruct (save_images image_save _ images) as [[n final] saves].
    reflexivity.
  - destruct (check_link_validity valid_url (static_links response) query
                (canonical response)) as [[valid_links errors]|e];
      [|reflexivity].
    cbn [fst snd].
    destruct (download_images http_get image_open valid_links)
      as [images dl_errors].
    unfold create_paths. cbn [fst snd].
    destruct (mkdir _); [reflexivity|].
    destruct (save_images image_save _ images) as [[n final] saves].
    reflexivity.
Qed.

Lemma run_messages_cases (query : string) (msgs : list string) :
  snd (run query) = Messages msgs ->
  (valid_url query = false
   /\ run query = ([], Messages ["Invalid URL. Try again!"]))
  \/ (exists error,
        http_get query = inl error
        /\ run query
           = ([Requested query], Messages ["Error accessing URL: " ++ error]))
  \/ (exists response,
        http_get query = inr response
        /\ static_links response = []
        /\ run query
           = ([Requested query],
              Messages ["Unable to access images at " ++ query])).
Proof.
  intro H.
  destruct (valid_url query) eqn:Hv; [|left; split; [reflexivity|];
                                       now apply run_invalid].
  right. destruct (http_get query) as [error|response] eqn:Hg.
  - left. exists error. split; [reflexivity | now apply run_unreachable].
  - right. exists response. split; [reflexivity|].
    destruct (Nat.eq_dec (length (static_links response)) 0) as [Hz|Hn].
    + apply length_zero_iff_nil in Hz. split; [exact Hz|].
      exact (run_without_links_at query response Hv Hg Hz).
    + exfalso.
      rewrite (run_from_links query response Hv Hg Hn) in H. cbv zeta in H.
      destruct (if (length (static_links response) <? MIN_LINKS)%nat
                then rendered_links query else Ret (static_links response))
        as [raw|e]; [|discriminate].
      destruct (check_link_validity valid_url raw query (canonical response));
        [|discriminate].
      destruct (mkdir destination_dir); discriminate.
Qed.

(** X13: a run that answers with messages answers with exactly one,
    and it is one of three.  The URL was turned down and nothing was
    requested; or the page request failed; or the static parse found no
    link.  In the last two cases the page request is all the run has done:
    nothing was rendered, no directory and no archive made. *)
Theorem messages_are_single_and_early (query : string) (msgs : list string) :
  snd (run query) = Messages msgs ->
  (valid_url query = false
   /\ run query = ([], Messages ["Invalid URL. Try again!"]))
  \/ (exists error,
        http_get query = inl error
        /\ run query
           = ([Requested query], Messages ["Error accessing URL: " ++ error]))
  \/ (exists response,
        http_get query = inr response
        /\ get_raw_image_links valid_url (HTMLParser (text response)) TAGS
           = []
        /\ run query
           = ([Requested query],
              Messages ["Unable to access images at " ++ query])).
Proof. apply run_messages_cases. Qed.

(** X14: in the result of a run the error count is the length of the
    error list, and the images saved and the errors recorded add up to the
    number of links that were normalized: the static links when there were
    at least [MIN_LINKS] of them, the links of the rendered page
    otherwise. *)
Theorem result_counts_add_up (query : string) (r : run_result) :
  snd (run query) = Result r ->
  num_errors r = length (error_links r)
  /\ exists response raw_links,
       http_get query = inr response
       /\ num_raw_links r = length (static_links response)
       /\ 1 <= num_raw_links r
       /\ (if (num_raw_links r <? MIN_LINKS)%nat
           then rendered_links query = Ret raw_links
           else raw_links = static_links response)
       /\ num_dl_images r + num_errors r = length raw_links.
Proof.
  intro H.
  destruct (valid_url query) eqn:Hv;
    [|now rewrite (run_invalid query Hv) in H].
  destruct (http_get query) as [error|response] eqn:Hg;
    [now rewrite (run_unreachable query error Hv Hg) in H|].
  destruct (Nat.eq_dec (length (static_links response)) 0) as [Hz|Hn].
  { apply length_zero_iff_nil in Hz.
    now rewrite (run_without_links_at query response Hv Hg Hz) in H. }
  rewrite (run_from_links query response Hv Hg Hn) in H. cbv zeta in H.
  destruct (if (length (static_links response) <? MIN_LINKS)%nat
            then rendered_links query else Ret (static_links response))
    as [raw|e] eqn:Er; [|discriminate].
  destruct (check_link_validity valid_url raw query (canonical response))
    as [[valid_links errors]|e] eqn:Ec; [|discriminate].
  cbn [fst snd] in H.
  destruct (mkdir destination_dir); [discriminate|].
  cbn [snd] in H. injection H as <-. cbn [num_errors error_links num_raw_links
                                         num_dl_images].
  split; [reflexivity|]. exists response, raw.
  split; [reflexivity|]. split; [reflexivity|]. split; [lia|].
  split.
  - destruct (length (static_links response) <? MIN_LINKS)%nat;
      [exact Er | now injection Er].
  - apply check_link_validity_partition in Ec.
    destruct (download_loop_spec http_get image_open valid_links 1 [] [])
      as [_ Ld]; [constructor|].
    fold (download_images http_get image_open valid_links) in Ld.
    destruct (save_loop_spec image_save destination_dir
                (fst (download_images http_get image_open valid_links))
                0 [] []) as (_ & _ & Ls & _).
    cbv zeta in Ls.
    fold (save_images image_save destination_dir
            (fst (download_images http_get image_open valid_links))) in Ls.
    rewrite !length_app. cbn [length] in Ld, Ls. lia.
Qed.

Lemma run_result_trace (query : string) (r : run_result) :
  snd (run query) = Result r ->
  let d := destination_directory r in
  filename r = "IMGHUNT_" ++ strftime_now
  /\ source_directory r = path_join getcwd TEMP_DL_FOLDER
  /\ d = path_join (source_directory r) (filename r)
  /\ exists before saves,
       fst (run query)
         = (before ++ [MadeDir d] ++ saves ++ [MadeArchive d d])%list
       /\ Forall (fun ev => exists url,
                    ev = Requested url \/ ev = Rendered url) before
       /\ Forall (fun ev => exists name, ev = SavedImage (path_join d name))
                 saves
       /\ length saves = num_dl_images r.
Proof.
  intro H.
  destruct (valid_url query) eqn:Hv;
    [|now rewrite (run_invalid query Hv) in H].
  destruct (http_get query) as [error|response] eqn:Hg;
    [now rewrite (run_unreachable query error Hv Hg) in H|].
  destruct (Nat.eq_dec (length (static_links response)) 0) as [Hz|Hn].
  { apply length_zero_iff_nil in Hz.
    now rewrite (run_without_links_at query response Hv Hg Hz) in H. }
  rewrite (run_from_links query response Hv Hg Hn) in *. cbv zeta in *.
  destruct (if (length (static_links response) <? MIN_LINKS)%nat
            then rendered_links query else Ret (static_links response))
    as [raw|e]; [|discriminate].
  destruct (check_link_validity valid_url raw query (canonical response))
    as [[valid_links errors]|e]; [|discriminate].
  cbn [fst snd] in *.
  destruct (mkdir destination_dir); [discriminate|].
  cbn [fst snd] in *. injection H as <-.
  cbn [filename source_directory destination_directory num_dl_images].
  split; [reflexivity|]. split; [reflexivity|]. split; [reflexivity|].
  destruct (save_loop_spec image_save destination_dir
              (fst (download_images http_get image_open valid_links))
              0 [] []) as (Es1 & _ & _ & Es4).
  cbv zeta in Es1, Es4.
  fold (save_images image_save destination_dir
          (fst (download_images http_get image_open valid_links))) in Es1, Es4.
  exists ((Requested query
           :: (if (length (static_links response) <? MIN_LINKS)%nat
               then [Rendered query] else []))
          ++ map Requested valid_links)%list,
         (snd (save_images image_save destination_dir
                 (fst (download_images http_get image_open valid_links)))).
  split; [now rewrite <- app_assoc|]. split; [|split].
  - apply Forall_app. split.
    + constructor; [eauto|].
      destruct (length (static_links response) <? MIN_LINKS)%nat;
        repeat constructor; eauto.
    + apply Forall_forall. intros ev Hin. apply in_map_iff in Hin.
      destruct Hin as (u & <- & _). eauto.
  - rewrite Es1. cbn [app]. apply Forall_forall. intros ev Hin.
    apply in_flat_map in Hin. destruct Hin as ([name [img url]] & _ & Hin).
    cbn [fst snd] in Hin.
    destruct (image_save img (path_join destination_dir name));
      [contradiction|].
    destruct Hin as [<- | []]. eauto.
  - cbn [length] in Es4. lia.
Qed.

(** X15: a run that returns a result has made its directory once, after
    the last request and before the first save, has written every saved
    image under that directory, and has made the archive last, from that
    directory and under its name.  The directory is the [filename] of the
    result under its [source_directory]. *)
Theorem result_files_are_in_place (query : string) (r : run_result) :
  snd (run query) = Result r ->
  let d := destination_directory r in
  filename r = "IMGHUNT_" ++ strftime_now
  /\ source_directory r = path_join getcwd TEMP_DL_FOLDER
  /\ d = path_join (source_directory r) (filename r)
  /\ exists before saves,
       fst (run query)
         = (before ++ [MadeDir d] ++ saves ++ [MadeArchive d d])%list
       /\ Forall (fun ev => exists url,
                    ev = Requested url \/ ev = Rendered url) before
       /\ Forall (fun ev => exists name, ev = SavedImage (path_join d name))
                 saves
       /\ length saves = num_dl_images r.
Proof. apply run_result_trace. Qed.

(** X16: the page is rendered at most once in a run, and exactly when
    the URL is accepted, the page is fetched and the static parse finds at
    least one link and fewer than [MIN_LINKS]. *)
Theorem rendering_happens_once_when_links_are_few (query : string) :
  filter is_rendered (fst (run query))
    = if valid_url query
      then match http_get query with
           | inl _ => []
           | inr response =>
               if (0 <? length (static_links response))%nat
                  && (length (static_links response) <? MIN_LINKS)%nat
               then [Rendered query]
               else []
           end
      else [].
Proof.
  destruct (valid_url query) eqn:Hv;
    [|now rewrite (run_invalid query Hv)].
  destruct (http_get query) as [error|response] eqn:Hg;
    [now rewrite (run_unreachable query error Hv Hg)|].
  destruct (Nat.eq_dec (length (static_links response)) 0) as [Hz|Hn].
  { rewrite Hz. apply length_zero_iff_nil in Hz.
    now rewrite (run_without_links_at query response Hv Hg Hz). }
  rewrite (run_from_links query response Hv Hg Hn). cbv zeta.
  assert (Hp : (0 <? length (static_links response))%nat = true)
    by (apply Nat.ltb_lt; lia).
  rewrite Hp. cbn [andb].
  assert (Hb : filter is_rendered
                 (Requested query
                  :: (if (length (static_links response) <? MIN_LINKS)%nat
                      then [Rendered query] else []))
               = if (length (static_links response) <? MIN_LINKS)%nat
                 then [Rendered query] else []).
  { now destruct (length (static_links response) <? MIN_LINKS)%nat. }
  destruct (if (length (static_links response) <? MIN_LINKS)%nat
            then rendered_links query else Ret (static_links response))
    as [raw|e]; [|exact Hb].
  destruct (check_link_validity valid_url raw query (canonical response))
    as [[valid_links errors]|e]; [|exact Hb].
  cbn [fst snd].
  destruct (mkdir destination_dir).
  - cbn [fst]. rewrite filter_app, Hb, filter_rendered_requests.
    apply app_nil_r.
  - cbn [fst]. rewrite !filter_app, Hb, filter_rendered_requests.
    destruct (save_loop_spec image_save destination_dir
                (fst (download_images http_get image_open valid_links))
                0 [] []) as (Es1 & _).
    cbv zeta in Es1.
    fold (save_images image_save destination_dir
            (fst (download_images http_get image_open valid_links))) in Es1.
    rewrite Es1. cbn [app].
    assert (F : forall images : image_dict,
               filter is_rendered
                 (flat_map (fun kv =>
                    match image_save (fst (snd kv))
                            (path_join destination_dir (fst kv)) with
                    | None => [SavedImage (path_join destination_dir (fst kv))]
                    | Some _ => []
                    end) images) = []).
    { induction images as [|kv rest IH]; [reflexivity|].
      cbn [flat_map]. rewrite filter_app, IH.
      destruct (image_save _ _); reflexivity. }
    rewrite !app_nil_l, F. cbn [filter is_rendered].
    rewrite !app_nil_l. apply app_nil_r.
Qed.

End RunMore.

Lemma messages_are_single_and_early_witness :
  snd (lab_scraper [] [] "https://example.com/missing")
    = Messages ["Error accessing URL: Client error '404 Not Found'"]
  /\ lab_scraper [] [] "https://example.com/missing"
     = ([Requested "https://example.com/missing"],
        Messages ["Error accessing URL: Client error '404 Not Found'"]).
Proof.
  split; [reflexivity|].
  destruct (messages_are_single_and_early url_shape lab_http_get
              (lab_parser [] []) lab_page_content lab_image_open
              (fun _ _ => None) (fun _ => None) "01-Jan-24_00-00-00" "/srv/app"
              "https://example.com/missing"
              ["Error accessing URL: Client error '404 Not Found'"] eq_refl)
    as [[_ E] | [(error & _ & E) | (response & _ & _ & E)]];
    reflexivity.
Defined.

Lemma result_counts_add_up_witness :
  exists r,
    snd (lab_scraper
           ["https://e.com/1.png"; "https://e.com/missing.png"; "x.png";
            "https://e.com/4.png"; "https://e.com/5.png"] []
           "https://example.com") = Result r
    /\ num_dl_images r = 3 /\ num_errors r = 2
    /\ num_dl_images r + num_errors r = 5.
Proof.
  eexists. split; [reflexivity|]. split; [reflexivity|]. split; [reflexivity|].
  destruct (result_counts_add_up url_shape lab_http_get
              (lab_parser
                 ["https://e.com/1.png"; "https://e.com/missing.png"; "x.png";
                  "https://e.com/4.png"; "https://e.com/5.png"] [])
              lab_page_content lab_image_open
              (fun _ _ => None) (fun _ => None) "01-Jan-24_00-00-00" "/srv/app"
              "https://example.com" _ eq_refl) as (_ & _ & _ & _ & _ & _ & _ & _).
  reflexivity.
Defined.

Lemma result_files_are_in_place_witness :
  exists r,
    snd (lab_scraper ["https://example.com/a.png"]
           ["https://example.com/a.png"; "https://example.com/b.png"]
           "https://example.com") = Result r
    /\ destination_directory r
       = "/srv/app/imghunt/temp_dl/IMGHUNT_01-Jan-24_00-00-00"
    /\ destination_directory r
       = path_join (source_directory r) (filename r).
Proof.
  eexists. split; [reflexivity|]. split; [reflexivity|].
  apply (result_files_are_in_place url_shape lab_http_get
           (lab_parser ["https://example.com/a.png"]
              ["https://example.com/a.png"; "https://example.com/b.png"])
           lab_page_content lab_image_open
           (fun _ _ => None) (fun _ => None) "01-Jan-24_00-00-00" "/srv/app"
           "https://example.com" _ eq_refl).
Defined.

(** ** The views *)

Lemma session_after_result (query : string) (r : run_result) :
  result_session query r
  = [("query", VStr query);
     ("num_raw_links", VInt (num_raw_links r));
     ("num_dl_images", VInt (num_dl_images r));
     ("num_errors", VInt (num_errors r));
     ("error_links", VErrors (error_links r));
     ("filename", VStr (filename r));
     ("source_directory", VStr (source_directory r));
     ("destination_directory", VStr (destination_directory r))].
Proof. reflexivity. Qed.

Section ViewsFacts.

Variable valid_url : string -> bool.
Variable http_get : string -> string + Response.
Variable HTMLParser : string -> ParsedHTML.
Variable page_content : string -> res string.
Variable image_open : string -> string + PILImage.
Variable image_save : PILImage -> string -> option string.
Variable mkdir : string -> option string.
Variables strftime_now getcwd : string.
Variable listdir : value -> res (list string).
Variable fs_do : fs_op -> option string.
Variable open_rb : string -> res string.
Variable py_format : option value -> string.

#[local] Abbreviation run :=
  (scraper valid_url http_get HTMLParser page_content image_open image_save
           mkdir strftime_now getcwd).
#[local] Abbreviation index_view :=
  (index valid_url http_get HTMLParser page_content image_open image_save
         mkdir strftime_now getcwd listdir fs_do).
#[local] Abbreviation cleanup_of s := (index_cleanup listdir fs_do s).

(** What [folder_cleanup] does to one entry that is not a [.DS_Store]. *)
#[local] Abbreviation cleanup_op dir :=
  (fun name => if endswith ".zip" name then Remove (path_join dir name)
               else Rmtree (path_join dir name)).
#[local] Abbreviation cleaned :=
  (fun name => negb (endswith ".DS_Store" name)).

(** The loop carries out the operations it owes one after the other.
    Either all of them succeed and nothing is raised, or one fails: the
    earlier ones have succeeded, the failing one is the last carried out,
    the later ones are never tried, and the error escapes. *)
Lemma cleanup_loop_stops (dir : string) (files : list string) :
  exists done rest,
    map (cleanup_op dir) (filter cleaned files) = (done ++ rest)%list
    /\ Forall (fun op => fs_do op = None) done
    /\ ((rest = []
         /\ cleanup_loop fs_do (VStr dir) files = (done, None))
        \/ (exists op msg later,
              rest = op :: later
              /\ fs_do op = Some msg
              /\ cleanup_loop fs_do (VStr dir) files
                 = ((done ++ [op])%list, Some (Escaped (OSError msg))))).
Proof.
  induction files as [|name files IH].
  - exists [], []. split; [reflexivity|]. split; [constructor|]. now left.
  - cbn [cleanup_loop filter].
    destruct (endswith ".DS_Store" name); cbn [negb]; [exact IH|].
    cbn [map]. destruct (fs_do (cleanup_op dir name)) as [msg|] eqn:F.
    + exists [], (cleanup_op dir name
                  :: map (cleanup_op dir) (filter cleaned files)).
      split; [reflexivity|]. split; [constructor|]. right.
      exists (cleanup_op dir name), msg,
             (map (cleanup_op dir) (filter cleaned files)).
      now rewrite F.
    + destruct IH as (done & rest & E & D & [[-> L] | (op & msg & later & -> & Fo & L)]).
      * exists (cleanup_op dir name :: done), [].
        split; [cbn [List.app]; now rewrite E|].
        split; [now constructor|]. left. split; [reflexivity|].
        now rewrite L.
      * exists (cleanup_op dir name :: done), (op :: later).
        split; [cbn [List.app]; now rewrite E|].
        split; [now constructor|]. right. exists op, msg, later.
        split; [reflexivity|]. split; [exact Fo|]. now rewrite L.
Qed.

(** X17: [folder_cleanup] never touches an entry whose name ends in
    [.DS_Store].  To the others it owes, in the order of the listing,
    [os.remove] when the name ends in [.zip] and [shutil.rmtree]
    otherwise.  It carries these out one after the other and stops at the
    first that fails: the operations before it have succeeded, it is the
    last one carried out, none after it is tried, and its error escapes.
    If none fails all are carried out and nothing is raised. *)
Theorem folder_cleanup_spares_ds_store (dir : string) (files : list string) :
  listdir (VStr dir) = Ret files ->
  exists done rest,
    map (fun name => if endswith ".zip" name
                     then Remove (path_join dir name)
                     else Rmtree (path_join dir name))
        (filter (fun name => negb (endswith ".DS_Store" name)) files)
      = (done ++ rest)%list
    /\ Forall (fun op => fs_do op = None) done
    /\ ((rest = []
         /\ folder_cleanup listdir fs_do (VStr dir) = (done, None))
        \/ (exists op msg later,
              rest = op :: later
              /\ fs_do op = Some msg
              /\ folder_cleanup listdir fs_do (VStr dir)
                 = ((done ++ [op])%list, Some (Escaped (OSError msg))))).
Proof.
  intro H. unfold folder_cleanup. rewrite H. apply cleanup_loop_stops.
Qed.

Lemma run_messages_single (query : string) (msgs : list string) :
  snd (run query) = Messages msgs -> exists msg, msgs = [msg].
Proof.
  intro H.
  destruct (run_messages_cases valid_url http_get HTMLParser page_content
              image_open image_save mkdir strftime_now getcwd query msgs H)
    as [[_ E] | [(error & _ & E) | (response & _ & _ & E)]];
    rewrite E in H; injection H as <-; eauto.
Qed.

(** X18: once the cleanup has gone through, [index] forgets the session
    it was given.  Without a query it renders the form on an empty
    session.  With one it runs the scraper: an exception of the run
    escapes; messages leave an empty session, are flashed (there is
    exactly one, so [result[0]] is always there) and redirect to the form;
    a result leaves the eight entries of this run and redirects to the
    success page. *)
Theorem index_answers (s : session) (q : option string) :
  snd (cleanup_of s) = None ->
  index_view s q
    = match q with
      | None =>
          (fst (cleanup_of s), [],
           Responded [] [] (Render "imghunt/index.html" []))
      | Some query =>
          (fst (cleanup_of s), fst (run query),
           match snd (run query) with
           | Uncaught e => RaisedInView (Escaped e)
           | Messages msgs => Responded [] msgs (Redirect ".")
           | Result r =>
               Responded (result_session query r) []
                         (Redirect "imghunt:success")
           end)
      end.
Proof.
  intro H. unfold index.
  destruct (cleanup_of s) as [ops raised]. cbn [fst snd] in *. subst raised.
  destruct q as [query|]; [|reflexivity].
  destruct (run query) as [trace result] eqn:E. cbn [fst snd].
  destruct result as [msgs|r|e]; try reflexivity.
  destruct (run_messages_single query msgs) as [msg ->];
    [now rewrite E | reflexivity].
Qed.

(** X19: after a run that returned a result, the session [index] leaves
    makes the success page show the query and the four figures of that
    result, makes [download_zip] open the archive the run has just made
    (the destination directory with [.zip] added) and offer it under the
    name of the run, and makes the next call of [index] clean the source
    directory of the result. *)
Theorem result_is_shown_and_served (s : session) (query : string)
    (r : run_result) :
  snd (cleanup_of s) = None -> snd (run query) = Result r ->
  let s' := result_session query r in
  let d := destination_directory r in
  snd (index_view s (Some query))
    = Responded s' [] (Redirect "imghunt:success")
  /\ success s'
     = Responded s' []
         (Render "imghunt/success.html"
            [("query", Some (VStr query));
             ("num_raw_links", Some (VInt (num_raw_links r)));
             ("num_dl_images", Some (VInt (num_dl_images r)));
             ("num_errors", Some (VInt (num_errors r)));
             ("error_links", Some (VErrors (error_links r)))])
  /\ In (MadeArchive d d) (fst (run query))
  /\ download_zip open_rb py_format s'
     = match open_rb (d ++ ".zip") with
       | Raise e => RaisedInView (Escaped e)
       | Ret body =>
           Responded s' []
             (FileResponse body "application/zip"
                ("attachment; filename=IMGHUNT_" ++ strftime_now ++ ".zip"))
       end
  /\ cleanup_of s'
     = folder_cleanup listdir fs_do (VStr (source_directory r)).
Proof.
  intros Hc Hr s' d.
  destruct (run_result_trace valid_url http_get HTMLParser page_content
              image_open image_save mkdir strftime_now getcwd query r Hr)
    as (Hf & _ & _ & before & saves & Ht & _).
  split; [|split; [|split; [|split]]].
  - unfold index. destruct (cleanup_of s) as [ops raised].
    cbn [snd] in Hc. subst raised.
    destruct (run query) as [trace result]. cbn [snd] in Hr. now subst result.
  - subst s'. rewrite session_after_result. unfold success.
    cbn [session_get String.eqb Ascii.eqb Bool.eqb]. reflexivity.
  - rewrite Ht. apply in_or_app. right. apply in_or_app. right.
    apply in_or_app. right. now left.
  - unfold download_zip. subst s'. rewrite session_after_result.
    cbn [session_get String.eqb Ascii.eqb Bool.eqb fstring]. rewrite Hf.
    reflexivity.
  - subst s'. rewrite session_after_result. unfold index_cleanup.
    cbn [session_get String.eqb Ascii.eqb Bool.eqb]. reflexivity.
Qed.

End ViewsFacts.


Lemma folder_cleanup_spares_ds_store_witness :
  folder_cleanup (fun _ => Ret ["a"; ".DS_Store"; "b.zip"; "c"])
                 (fun op => match op with
                            | Remove _ => Some "busy"
                            | Rmtree _ => None
                            end)
                 (VStr "/d")
  = ([Rmtree "/d/a"; Remove "/d/b.zip"], Some (Escaped (OSError "busy")))
  /\ exists done rest,
       [Rmtree "/d/a"; Remove "/d/b.zip"; Rmtree "/d/c"] = (done ++ rest)%list
       /\ Forall (fun op => match op with
                            | Remove _ => Some "busy"
                            | Rmtree _ => None
                            end = None) done
       /\ ((rest = []
            /\ folder_cleanup (fun _ => Ret ["a"; ".DS_Store"; "b.zip"; "c"])
                 (fun op => match op with
                            | Remove _ => Some "busy"
                            | Rmtree _ => None
                            end)
                 (VStr "/d") = (done, None))
           \/ (exists op msg later,
                 rest = op :: later
                 /\ match op with
                    | Remove _ => Some "busy"
                    | Rmtree _ => None
                    end = Some msg
                 /\ folder_cleanup
                      (fun _ => Ret ["a"; ".DS_Store"; "b.zip"; "c"])
                      (fun op => match op with
                                 | Remove _ => Some "busy"
                                 | Rmtree _ => None
                                 end)
                      (VStr "/d")
                    = ((done ++ [op])%list, Some (Escaped (OSError msg))))).
Proof.
  split; [vm_compute; reflexivity|].
  exact (folder_cleanup_spares_ds_store
           (fun _ => Ret ["a"; ".DS_Store"; "b.zip"; "c"])
           (fun op => match op with
                      | Remove _ => Some "busy"
                      | Rmtree _ => None
                      end)
           "/d" ["a"; ".DS_Store"; "b.zip"; "c"] eq_refl).
Defined.

Lemma index_answers_witness :
  lab_index [] [] [("query", VStr "https://old.example.com")]
            (Some "https://example.com")
  = ([], [Requested "https://example.com"],
     Responded [] ["Unable to access images at https://example.com"]
               (Redirect ".")).
Proof.
  unfold lab_index.
  rewrite (index_answers url_shape lab_http_get (lab_parser [] [])
             lab_page_content lab_image_open (fun _ _ => None) (fun _ => None)
             "01-Jan-24_00-00-00" "/srv/app" (fun _ => Ret []) (fun _ => None)
             [("query", VStr "https://old.example.com")]
             (Some "https://example.com")).
  - vm_compute. reflexivity.
  - vm_compute. reflexivity.
Defined.

Lemma result_is_shown_and_served_witness :
  exists r,
    snd (lab_scraper ["https://example.com/a.png"]
           ["https://example.com/a.png"; "https://example.com/b.png"]
           "https://example.com") = Result r
    /\ success (result_session "https://example.com" r)
       = Responded (result_session "https://example.com" r) []
           (Render "imghunt/success.html"
              [("query", Some (VStr "https://example.com"));
               ("num_raw_links", Some (VInt 1));
               ("num_dl_images", Some (VInt 2));
               ("num_errors", Some (VInt 0));
               ("error_links", Some (VErrors []))]).
Proof.
  eexists. split; [vm_compute; reflexivity|].
  match goal with
  | |- success (result_session ?q ?r) = _ =>
      destruct (result_is_shown_and_served url_shape lab_http_get
                  (lab_parser ["https://example.com/a.png"]
                     ["https://example.com/a.png"; "https://example.com/b.png"])
                  lab_page_content lab_image_open
                  (fun _ _ => None) (fun _ => None)
                  "01-Jan-24_00-00-00" "/srv/app"
                  (fun _ => Ret []) (fun _ => None)
                  (fun _ => Ret "zip") (fun _ => "None")
                  [] q r) as (_ & E & _)
  end.
  - vm_compute. reflexivity.
  - vm_compute. reflexivity.
  - exact E.
Defined.

(** ** Nested links that are not neighbours *)

Lemma pop_app {A : Type} (pre suf : list A) (x : A) :
  pop (length pre) (pre ++ x :: suf) = (pre ++ suf)%list.
Proof.
  induction pre as [|a pre IH]; [reflexivity|].
  rewrite <- !app_comm_cons. cbn [length pop]. now rewrite IH.
Qed.

Lemma nth_error_middle {A : Type} (pre suf : list A) (x : A) :
  nth_error (pre ++ x :: suf) (length pre) = Some x.
Proof.
  rewrite nth_error_app2 by lia. now rewrite Nat.sub_diag.
Qed.

Section NestedLinksApart.

Variable valid_url : string -> bool.

Lemma nested_loop_done (fuel : nat) (links : list string) (idx : nat)
    (url_filter : list string) :
  length links <= idx ->
  nested_loop valid_url fuel links idx url_filter = (links, url_filter).
Proof.
  intro H. destruct fuel; [reflexivity|]. cbn [nested_loop].
  assert (E : nth_error links idx = None) by now apply nth_error_None.
  now rewrite E.
Qed.

Lemma nested_loop_apart (fuel : nat) (suf pre url_filter : list string) :
  length suf <= fuel -> no_adjacent_spaced suf = true ->
  nested_loop valid_url fuel (pre ++ suf) (length pre) url_filter
    = ((pre ++ filter (fun l => negb (contains " " l)) suf)%list,
       (url_filter
        ++ flat_map (nested_items valid_url) (filter (contains " ") suf))%list).
Proof.
  revert suf pre url_filter.
  induction fuel as [|fuel IH]; intros suf pre url_filter Hlen Hadj.
  - destruct suf; [|cbn [length] in Hlen; lia].
    cbn [nested_loop filter flat_map]. now rewrite !app_nil_r.
  - destruct suf as [|x suf'].
    + rewrite nested_loop_done by (rewrite app_nil_r; lia).
      cbn [filter flat_map]. now rewrite !app_nil_r.
    + cbn [nested_loop]. rewrite nth_error_middle.
      cbn [no_adjacent_spaced] in Hadj. apply andb_prop in Hadj.
      destruct Hadj as [Hx Hrest]. cbn [length] in Hlen.
      cbn [filter]. destruct (contains " " x) eqn:Sx; cbn [negb].
      * rewrite pop_app. destruct suf' as [|y suf''].
        -- rewrite nested_loop_done by (rewrite app_nil_r; lia).
           cbn [filter flat_map]. now rewrite !app_nil_r.
        -- cbn [andb] in Hx. apply negb_true_iff in Hx.
           cbn [filter]. rewrite Hx. cbn [negb flat_map].
           replace (pre ++ y :: suf'')%list with ((pre ++ [y]) ++ suf'')%list
             by now rewrite <- app_assoc.
           replace (S (length pre)) with (length (pre ++ [y]))
             by (rewrite length_app; cbn [length]; lia).
           cbn [no_adjacent_spaced] in Hrest. apply andb_prop in Hrest.
           rewrite IH; [|cbn [length] in Hlen; lia | tauto].
           now rewrite <- !app_assoc.
      * replace (pre ++ x :: suf')%list with ((pre ++ [x]) ++ suf')%list
          by now rewrite <- app_assoc.
        replace (S (length pre)) with (length (pre ++ [x]))
          by (rewrite length_app; cbn [length]; lia).
        rewrite IH; [|lia | exact Hrest].
        now rewrite <- !app_assoc.
Qed.

(** X20: when no two values with a space stand next to each other,
    [check_nested_links] does what its docstring says.  The result is the
    values without a space, in their order, followed by the validated
    tokens of the values with a space, in the order of those values; no
    value with a space is left. *)
Theorem check_nested_links_apart (links : list string) :
  no_adjacent_spaced links = true ->
  check_nested_links valid_url links
    = (filter (fun l => negb (contains " " l)) links
       ++ flat_map (nested_items valid_url) (filter (contains " ") links))%list.
Proof.
  intro H. unfold check_nested_links.
  destruct (existsb (contains " ") links) eqn:E.
  - pose proof (nested_loop_apart (length links) links [] [] (le_n _) H) as P.
    cbn [List.app length] in P. now rewrite P.
  - assert (F : forall l, In l links -> contains " " l = false).
    { intros l Hin. destruct (contains " " l) eqn:S; [|reflexivity].
      assert (existsb (contains " ") links = true)
        by (apply existsb_exists; eauto).
      congruence. }
    clear E H. induction links as [|x rest IH]; [reflexivity|].
    cbn [filter]. rewrite (F x (or_introl eq_refl)). cbn [negb List.app].
    f_equal. apply IH. intros l Hin. apply F. now right.
Qed.

End NestedLinksApart.

Lemma check_nested_links_apart_witness :
  no_adjacent_spaced
    ["https://a.com/1.png 1x, https://a.com/2.png 2x"; "https://a.com/3.png";
     "https://a.com/4.png 2x"] = true
  /\ check_nested_links url_shape
       ["https://a.com/1.png 1x, https://a.com/2.png 2x"; "https://a.com/3.png";
        "https://a.com/4.png 2x"]
     = ["https://a.com/3.png"; "https://a.com/1.png"; "https://a.com/2.png";
        "https://a.com/4.png"].
Proof.
  split; [reflexivity|].
  rewrite (check_nested_links_apart url_shape) by reflexivity.
  vm_compute. reflexivity.
Defined.

(** ** Where the files go *)

Lemma length_snoc (x : string) (c : ascii) :
  String.length (x ++ String c EmptyString) = S (String.length x).
Proof. rewrite length_append. cbn [String.length]. lia. Qed.

Lemma get_last (x : string) (c : ascii) :
  String.get (String.length (x ++ String c EmptyString) - 1)
             (x ++ String c EmptyString) = Some c.
Proof.
  induction x as [|a x IH]; [reflexivity|].
  cbn [append String.length Nat.sub]. rewrite Nat.sub_0_r.
  rewrite length_snoc in *. cbn [Nat.sub] in IH. rewrite Nat.sub_0_r in IH.
  cbn [String.get]. exact IH.
Qed.

Lemma append_assoc (a b c : string) : (a ++ b) ++ c = a ++ (b ++ c).
Proof. induction a as [|x a IH]; cbn [append]; [reflexivity | now rewrite IH]. Qed.

Lemma temp_folder_does_not_end_in_slash (cwd : string) :
  endswith_slash (cwd ++ "imghunt/temp_dl") = false
  /\ endswith_slash (cwd ++ "/" ++ "imghunt/temp_dl") = false.
Proof.
  unfold endswith_slash. split.
  - change "imghunt/temp_dl" with ("imghunt/temp_d" ++ "l").
    rewrite <- append_assoc. now rewrite get_last.
  - change ("/" ++ "imghunt/temp_dl") with ("/imghunt/temp_d" ++ "l").
    rewrite <- append_assoc. now rewrite get_last.
Qed.

Lemma append_not_empty (a b : string) :
  b <> "" -> (String.length (a ++ b) =? 0)%nat = false.
Proof.
  intro H. rewrite length_append. destruct b; [congruence|].
  cbn [String.length]. apply Nat.eqb_neq. lia.
Qed.

(** X21: the working directory of a run is [IMGHUNT_] and the time
    stamp, directly under the source directory, whatever the current
    directory is; the source directory is [imghunt/temp_dl] under the
    current directory, with a slash put between the two unless the current
    directory is empty or already ends in one. *)
Theorem create_paths_layout (cwd now : string) :
  let source := fst (create_paths cwd TEMP_DL_FOLDER (create_folder now)) in
  let destination :=
    snd (create_paths cwd TEMP_DL_FOLDER (create_folder now)) in
  destination = source ++ "/IMGHUNT_" ++ now
  /\ source
     = (if (String.length cwd =? 0)%nat || endswith_slash cwd
        then cwd ++ "imghunt/temp_dl"
        else cwd ++ "/imghunt/temp_dl").
Proof.
  cbv zeta. unfold create_paths, create_folder, TEMP_DL_FOLDER.
  cbn [fst snd]. unfold path_join at 1 3.
  change (startswith "/" ("IMGHUNT_" ++ now)) with false.
  change (startswith "/" "imghunt/temp_dl") with false. cbv iota.
  destruct (temp_folder_does_not_end_in_slash cwd) as [E1 E2].
  split.
  - unfold path_join.
    change (startswith "/" "imghunt/temp_dl") with false. cbv iota.
    destruct ((String.length cwd =? 0)%nat || endswith_slash cwd).
    + rewrite append_not_empty by discriminate. now rewrite E1.
    + rewrite append_not_empty by discriminate. now rewrite E2.
  - unfold path_join.
    change (startswith "/" "imghunt/temp_dl") with false. cbv iota.
    reflexivity.
Qed.
